(** * Scale jittering with a fixed-size output

    A shallow embedding of [scale_jittering_tensor_with_fixed_size_output]
    from [tf_image_segmentation/utils/augmentation.py], together with the
    TensorFlow 1.x operations it calls.  Tensors are nested lists (height,
    width, channels), int32 values are integers with their wrap-around
    written out, float32 values are IEEE 754 binary32 numbers ([spec_float]
    at precision 24), the random generator is passed explicitly, and the
    errors the TensorFlow operations raise are values of an error monad. *)

From Stdlib Require Import String ZArith List Bool Lia.
From Stdlib Require Import Floats.SpecFloat.
Import ListNotations.
Local Open Scope string_scope.
Local Open Scope list_scope.
Local Open Scope Z_scope.

(** * Part I: the program *)

(** ** The error monad *)

Inductive tf_error : Type :=
| InvalidArgumentError (msg : string)
| ValueError (msg : string).

Inductive result (A : Type) : Type :=
| Ok (a : A)
| Raise (e : tf_error).

Arguments Ok {A} a.
Arguments Raise {A} e.

Definition bind {A B : Type} (m : result A) (k : A -> result B) : result B :=
  match m with
  | Ok a => k a
  | Raise e => Raise e
  end.

Notation "x <- m ;; k" := (bind m (fun x => k))
  (at level 61, m at next level, right associativity).

Definition assert (b : bool) (e : tf_error) : result unit :=
  if b then Ok tt else Raise e.

(** ** int32 *)

Module Int32.

Definition min_int : Z := - 2 ^ 31.
Definition max_int : Z := 2 ^ 31 - 1.

Definition in_range (z : Z) : bool := (min_int <=? z) && (z <=? max_int).

(** Two's complement wrap-around of a 32-bit signed integer. *)
Definition wrap (z : Z) : Z := (z + 2 ^ 31) mod 2 ^ 32 - 2 ^ 31.

Definition add (a b : Z) : Z := wrap (a + b).
Definition sub (a b : Z) : Z := wrap (a - b).
Definition mul (a b : Z) : Z := wrap (a * b).

End Int32.

(** ** float32 *)

Module F32.

Definition prec : Z := 24.
Definition emax : Z := 128.

Definition t : Type := spec_float.

(** A conversion from an integer rounds to the nearest float, ties to
    even. *)
Definition of_Z (z : Z) : t := binary_normalize prec emax z 0 false.
Definition mul : t -> t -> t := SFmul prec emax.
Definition div : t -> t -> t := SFdiv prec emax.
Definition add : t -> t -> t := SFadd prec emax.
Definition sub : t -> t -> t := SFsub prec emax.
Definition ltb : t -> t -> bool := SFltb.

Definition one : t := S754_finite false 8388608 (-23).
Definition half : t := S754_finite false 8388608 (-24).
Definition two : t := S754_finite false 8388608 (-22).

(** [std::min(a, b)], which is [(b < a) ? b : a]. *)
Definition min (a b : t) : t := if ltb b a then b else a.

(** The floor and the ceiling of [m * 2^e]. *)
Definition floor_mag (m : positive) (e : Z) : Z :=
  if 0 <=? e then Z.pos m * 2 ^ e else Z.pos m / 2 ^ (- e).

Definition ceil_mag (m : positive) (e : Z) : Z :=
  if 0 <=? e then Z.pos m * 2 ^ e else - ((- Z.pos m) / 2 ^ (- e)).

(** The integer nearest to [m * 2^e], the even one of two that are equally
    near. *)
Definition nearest_even_mag (m : positive) (e : Z) : Z :=
  if 0 <=? e then Z.pos m * 2 ^ e
  else
    let d := 2 ^ (- e) in
    let q := Z.pos m / d in
    let r := Z.pos m mod d in
    match 2 * r ?= d with
    | Lt => q
    | Gt => q + 1
    | Eq => if Z.even q then q else q + 1
    end.

Definition signed (s : bool) (z : Z) : Z := if s then - z else z.

(** [tf.round]: round half to even; the result is again a float. *)
Definition round (x : t) : t :=
  match x with
  | S754_finite s m e =>
      if 0 <=? e then x
      else binary_normalize prec emax (signed s (nearest_even_mag m e)) 0 s
  | _ => x
  end.

(** [floorf]. *)
Definition floor (x : t) : t :=
  match x with
  | S754_finite s m e =>
      if 0 <=? e then x
      else binary_normalize prec emax
             (if s then - ceil_mag m e else floor_mag m e) 0 s
  | _ => x
  end.

(** A C++ [static_cast] from float to a signed integer of [w] bits truncates
    toward zero.  Out of range, and on infinities and NaN, C++ leaves the
    result undefined; the x86 conversion instructions the CPU kernels
    compile to give the "integer indefinite" value, the least integer. *)
Definition to_int (w : Z) (x : t) : Z :=
  let indefinite := - 2 ^ (w - 1) in
  match x with
  | S754_zero _ => 0
  | S754_finite s m e =>
      let z := signed s (floor_mag m e) in
      if (indefinite <=? z) && (z <? 2 ^ (w - 1)) then z else indefinite
  | _ => indefinite
  end.

Definition to_int32 : t -> Z := to_int 32.
Definition to_int64 : t -> Z := to_int 64.

Definition is_finite (x : t) : bool :=
  match x with
  | S754_zero _ | S754_finite _ _ _ => true
  | _ => false
  end.

(** [represents z x]: the float [x] is the integer [z], for [0 < z < 2^24]. *)
Inductive represents (z : Z) : t -> Prop :=
| represents_intro m e :
    Z.pos (digits2_pos m) = 24 -> -23 <= e <= 0 -> Z.pos m = z * 2 ^ (- e) ->
    represents z (S754_finite false m e).

(** The integers from 0 to [2^24]: every one of them is a float. *)
Definition small (z : Z) : Prop := 0 <= z <= 2 ^ 24.

(** A float whose mantissa has at most 24 bits, as every float an operation
    returns has. *)
Definition canonical (x : t) : Prop :=
  match x with
  | S754_finite _ m _ => Z.pos (digits2_pos m) <= 24
  | _ => True
  end.

End F32.

(** ** The random number generator

    [tf.random_uniform] is the only stateful operation.  The generator is
    the sequence of 32-bit words it will produce and a position in it. *)

Record generator : Type := mkGenerator {
  words : nat -> Z;
  position : nat
}.

Definition next_uint32 (g : generator) : Z * generator :=
  (words g (position g) mod 2 ^ 32,
   mkGenerator (words g) (S (position g))).

(** [Uint32ToFloat]: 23 random bits become the mantissa of a float in
    [1, 2), from which 1 is subtracted. *)
Definition Uint32ToFloat (x : Z) : F32.t :=
  let man := Z.land x 8388607 in
  F32.sub (S754_finite false (Z.to_pos (Z.lor 8388608 man)) (-23)) F32.one.

Fixpoint random_uniform_unit (n : nat) (g : generator) : list F32.t * generator :=
  match n with
  | O => ([], g)
  | S n' =>
      let '(x, g1) := next_uint32 g in
      let '(rest, g2) := random_uniform_unit n' g1 in
      (Uint32ToFloat x :: rest, g2)
  end.

(** [tf.random_uniform(shape=[n], minval, maxval)] is
    [rnd * (maxval - minval) + minval] for [rnd] uniform in [0, 1). *)
Definition random_uniform (n : nat) (minval maxval : F32.t) (g : generator)
  : list F32.t * generator :=
  let '(rnd, g') := random_uniform_unit n g in
  (map (fun u => F32.add (F32.mul u (F32.sub maxval minval)) minval) rnd, g').

(** ** Tensors *)

Definition tensor3 (A : Type) : Type := list (list (list A)).
Definition tensor4 (A : Type) : Type := list (tensor3 A).

Definition height {A : Type} (t : tensor3 A) : Z := Z.of_nat (length t).
Definition width {A : Type} (t : tensor3 A) : Z := Z.of_nat (length (hd [] t)).
Definition depth {A : Type} (t : tensor3 A) : Z :=
  Z.of_nat (length (hd [] (hd [] t))).

(** [tf.expand_dims(t, 0)] and [tf.squeeze(t, axis=0)]. *)
Definition expand_dims {A : Type} (t : tensor3 A) : tensor4 A := [t].

Definition squeeze {A : Type} (b : tensor4 A) : result (tensor3 A) :=
  match b with
  | [t] => Ok t
  | _ => Raise (InvalidArgumentError "Can not squeeze dim[0], expected a dimension of 1")
  end.

(** [tf.shape] of a batch: batch size, height, width, channels. *)
Definition shape {A : Type} (b : tensor4 A) : list Z :=
  [Z.of_nat (length b); height (hd [] b); width (hd [] b); depth (hd [] b)].

(** [l[i:j]] for [0 <= i <= j]. *)
Definition slice {A : Type} (l : list A) (i j : nat) : list A :=
  firstn (j - i) (skipn i l).

(** [range(n)]. *)
Definition range (n : Z) : list Z := map Z.of_nat (seq 0 (Z.to_nat n)).

(** Element-wise operations. *)
Definition tmap {A B : Type} (f : A -> B) (t : tensor3 A) : tensor3 B :=
  map (map (map f)) t.

Fixpoint map2 {A B C : Type} (f : A -> B -> C) (l : list A) (l' : list B) : list C :=
  match l, l' with
  | a :: l, b :: l' => f a b :: map2 f l l'
  | _, _ => []
  end.

Definition tmap2 {A B C : Type} (f : A -> B -> C) (t : tensor3 A) (t' : tensor3 B)
  : tensor3 C :=
  map2 (map2 (map2 f)) t t'.

(** Element-wise operations on vectors, where a vector of one element is
    broadcast against the other operand. *)
Definition broadcast2 {A : Type} (f : A -> A -> A) (l l' : list A) : list A :=
  match l, l' with
  | _, [b] => map (fun a => f a b) l
  | [a], _ => map (f a) l'
  | _, _ => map2 f l l'
  end.

(** [tf.reduce_min] of a vector. *)
Definition reduce_min (l : list F32.t) : F32.t :=
  match l with
  | [] => S754_infinity false
  | x :: l' => fold_left F32.min l' x
  end.

(** ** tf.image.resize_nearest_neighbor

    TensorFlow's kernel, with [align_corners] false as the source leaves it:
    the scale of an axis is the float [in / float(out)], and output index
    [y] reads input index [min(floor(y * scale), in - 1)]. *)

Definition CalculateResizeScale (in_size out_size : Z) : F32.t :=
  F32.div (F32.of_Z in_size) (F32.of_Z out_size).

Definition nearest_index (in_size : Z) (scale : F32.t) (y : Z) : Z :=
  Z.min (F32.to_int64 (F32.floor (F32.mul (F32.of_Z y) scale))) (in_size - 1).

(** The loop nest of the kernel. *)
Definition ResizeNearestNeighbor {A : Type} (input : tensor3 A)
    (in_height in_width : Z) (height_scale width_scale : F32.t)
    (out_height out_width : Z) : tensor3 A :=
  map (fun y =>
         let in_y := nearest_index in_height height_scale y in
         map (fun x =>
                let in_x := nearest_index in_width width_scale x in
                nth (Z.to_nat in_x) (nth (Z.to_nat in_y) input []) [])
             (range out_width))
      (range out_height).

(** The operation: the checks of the kernel, then the loop nest on every
    image of the batch. *)
Definition resize_nearest_neighbor {A : Type} (images : tensor4 A) (size : list Z)
  : result (tensor4 A) :=
  match size with
  | [out_height; out_width] =>
      let in_height := height (hd [] images) in
      let in_width := width (hd [] images) in
      let channels := depth (hd [] images) in
      _ <- assert ((0 <? out_height) && (0 <? out_width))
             (InvalidArgumentError "output dimensions must be positive") ;;
      _ <- assert (0 <? channels)
             (InvalidArgumentError "image must have at least one channel") ;;
      _ <- assert ((0 <? in_height) && (0 <? in_width))
             (InvalidArgumentError "input image must be of non-zero size") ;;
      let height_scale := CalculateResizeScale in_height out_height in
      let width_scale := CalculateResizeScale in_width out_width in
      Ok (map (fun input =>
                 ResizeNearestNeighbor input in_height in_width
                   height_scale width_scale out_height out_width)
              images)
  | _ => Raise (InvalidArgumentError "shape_t must have two elements")
  end.

(** ** tf.image.resize_image_with_crop_or_pad

    TensorFlow's Python function: it checks its arguments, crops around the
    center what is too large and pads with zeros around the center what is
    too small. *)

Definition Check3DImage {A : Type} (image : tensor3 A) : result unit :=
  assert ((0 <? height image) && (0 <? width image) && (0 <? depth image))
    (ValueError "all dims of 'image.shape' must be > 0.").

(** [array_ops.slice(image, [begin_h, begin_w, 0], [size_h, size_w, -1])]. *)
Definition array_slice {A : Type} (image : tensor3 A)
    (begin_h begin_w size_h size_w : Z) : tensor3 A :=
  map (fun row => firstn (Z.to_nat size_w) (skipn (Z.to_nat begin_w) row))
      (firstn (Z.to_nat size_h) (skipn (Z.to_nat begin_h) image)).

(** [array_ops.pad(image, [[top, bottom], [left, right], [0, 0]])]: the
    padding is zero. *)
Definition array_pad {A : Type} (zero : A) (image : tensor3 A)
    (top bottom left right : Z) : tensor3 A :=
  let blank := repeat zero (Z.to_nat (depth image)) in
  let blank_row := repeat blank (Z.to_nat (left + width image + right)) in
  repeat blank_row (Z.to_nat top)
  ++ map (fun row => repeat blank (Z.to_nat left) ++ row ++ repeat blank (Z.to_nat right))
       image
  ++ repeat blank_row (Z.to_nat bottom).

Definition crop_to_bounding_box {A : Type} (image : tensor3 A)
    (offset_height offset_width target_height target_width : Z)
  : result (tensor3 A) :=
  _ <- Check3DImage image ;;
  _ <- assert (0 <=? offset_width) (ValueError "offset_width must be >= 0.") ;;
  _ <- assert (0 <=? offset_height) (ValueError "offset_height must be >= 0.") ;;
  _ <- assert (0 <? target_width) (ValueError "target_width must be > 0.") ;;
  _ <- assert (0 <? target_height) (ValueError "target_height must be > 0.") ;;
  _ <- assert (target_width + offset_width <=? width image)
         (ValueError "width must be >= target + offset.") ;;
  _ <- assert (target_height + offset_height <=? height image)
         (ValueError "height must be >= target + offset.") ;;
  Ok (array_slice image offset_height offset_width target_height target_width).

Definition pad_to_bounding_box {A : Type} (zero : A) (image : tensor3 A)
    (offset_height offset_width target_height target_width : Z)
  : result (tensor3 A) :=
  _ <- Check3DImage image ;;
  let after_padding_width := target_width - offset_width - width image in
  let after_padding_height := target_height - offset_height - height image in
  _ <- assert (0 <=? offset_height) (ValueError "offset_height must be >= 0") ;;
  _ <- assert (0 <=? offset_width) (ValueError "offset_width must be >= 0") ;;
  _ <- assert (0 <=? after_padding_width) (ValueError "width must be <= target - offset") ;;
  _ <- assert (0 <=? after_padding_height) (ValueError "height must be <= target - offset") ;;
  Ok (array_pad zero image offset_height after_padding_height
        offset_width after_padding_width).

(** The divisions are Python's floor divisions, [-width_diff // 2] being
    [(-width_diff) // 2]. *)
Definition resize_image_with_crop_or_pad {A : Type} (zero : A) (image : tensor3 A)
    (target_height target_width : Z) : result (tensor3 A) :=
  _ <- Check3DImage image ;;
  _ <- assert (0 <? target_width) (ValueError "target_width must be > 0.") ;;
  _ <- assert (0 <? target_height) (ValueError "target_height must be > 0.") ;;
  let width_diff := target_width - width image in
  let offset_crop_width := Z.max (- width_diff / 2) 0 in
  let offset_pad_width := Z.max (width_diff / 2) 0 in
  let height_diff := target_height - height image in
  let offset_crop_height := Z.max (- height_diff / 2) 0 in
  let offset_pad_height := Z.max (height_diff / 2) 0 in
  cropped <- crop_to_bounding_box image offset_crop_height offset_crop_width
               (Z.min target_height (height image))
               (Z.min target_width (width image)) ;;
  pad_to_bounding_box zero cropped offset_pad_height offset_pad_width
    target_height target_width.

(** ** The transform *)

(** [tf.to_int32(tf.equal(v, 0))]. *)
Definition is_pad (v : Z) : Z := if v =? 0 then 1 else 0.

(** An element of [annotation_additional_mask_out]: [mask_out_number + 1] is
    a Python integer, converted to an int32 constant when it meets the int32
    tensor. *)
Definition mask_out (mask_out_number : Z) (v : Z) : Z :=
  Int32.mul (is_pad v) (Int32.wrap (mask_out_number + 1)).

(** The function of the source, line by line.  [zero] is the zero of the
    image's element type, with which the image is padded; the generator is
    taken and returned. *)
Definition scale_jittering_tensor_with_fixed_size_output {A : Type} (zero : A)
    (img_tensor : tensor3 A) (annotation_tensor : tensor3 Z)
    (output_shape : list Z)
    (min_relative_random_scale_change max_realtive_random_scale_change : F32.t)
    (mask_out_number : Z) (g : generator)
  : result (tensor3 A * tensor3 Z) * generator :=
  let img_batched := expand_dims img_tensor in
  let annotation_batched := expand_dims annotation_tensor in
  let annotation_batched := map (tmap Int32.wrap) annotation_batched in
  let input_shape := slice (shape img_batched) 1 3 in
  let input_shape_float := map F32.of_Z input_shape in
  let scales := broadcast2 F32.div (map F32.of_Z output_shape) input_shape_float in
  let '(rand_var, g') :=
    random_uniform 1 min_relative_random_scale_change
      max_realtive_random_scale_change g in
  let final_scale := broadcast2 F32.mul [reduce_min scales] rand_var in
  let scaled_input_shape :=
    map F32.to_int32
      (map F32.round (broadcast2 F32.mul input_shape_float final_scale)) in
  (resized_img <- resize_nearest_neighbor img_batched scaled_input_shape ;;
   resized_annotation <- resize_nearest_neighbor annotation_batched scaled_input_shape ;;
   resized_img <- squeeze resized_img ;;
   resized_annotation <- squeeze resized_annotation ;;
   let annotation_shifted_classes := tmap (fun v => Int32.add v 1) resized_annotation in
   cropped_padded_img <-
     resize_image_with_crop_or_pad zero resized_img
       (nth 0 output_shape 0) (nth 1 output_shape 0) ;;
   cropped_padded_annotation <-
     resize_image_with_crop_or_pad 0 annotation_shifted_classes
       (nth 0 output_shape 0) (nth 1 output_shape 0) ;;
   let annotation_additional_mask_out :=
     tmap (mask_out mask_out_number) cropped_padded_annotation in
   let cropped_padded_annotation :=
     tmap (fun v => Int32.sub v 1)
       (tmap2 Int32.add cropped_padded_annotation annotation_additional_mask_out) in
   Ok (cropped_padded_img, cropped_padded_annotation),
   g').

(** *** The transform as a function of the draw *)

(** Lines 62 to 72: the shape the image and the annotation are resized
    to. *)
Definition scaled_input_shape_of (input_shape output_shape : list Z)
    (rand_var : list F32.t) : list Z :=
  let input_shape_float := map F32.of_Z input_shape in
  let scales := broadcast2 F32.div (map F32.of_Z output_shape) input_shape_float in
  let final_scale := broadcast2 F32.mul [reduce_min scales] rand_var in
  map F32.to_int32 (map F32.round (broadcast2 F32.mul input_shape_float final_scale)).

(** What the function returns when line 66 has drawn [rand_var]. *)
Definition scale_jittering_with_rand_var {A : Type} (zero : A)
    (img_tensor : tensor3 A) (annotation_tensor : tensor3 Z)
    (output_shape : list Z) (rand_var : list F32.t) (mask_out_number : Z)
  : result (tensor3 A * tensor3 Z) :=
  let img_batched := expand_dims img_tensor in
  let annotation_batched := map (tmap Int32.wrap) (expand_dims annotation_tensor) in
  let input_shape := slice (shape img_batched) 1 3 in
  let scaled_input_shape := scaled_input_shape_of input_shape output_shape rand_var in
  resized_img <- resize_nearest_neighbor img_batched scaled_input_shape ;;
  resized_annotation <- resize_nearest_neighbor annotation_batched scaled_input_shape ;;
  resized_img <- squeeze resized_img ;;
  resized_annotation <- squeeze resized_annotation ;;
  let annotation_shifted_classes := tmap (fun v => Int32.add v 1) resized_annotation in
  cropped_padded_img <-
    resize_image_with_crop_or_pad zero resized_img
      (nth 0 output_shape 0) (nth 1 output_shape 0) ;;
  cropped_padded_annotation <-
    resize_image_with_crop_or_pad 0 annotation_shifted_classes
      (nth 0 output_shape 0) (nth 1 output_shape 0) ;;
  Ok (cropped_padded_img,
      tmap (fun v => Int32.sub v 1)
        (tmap2 Int32.add cropped_padded_annotation
           (tmap (mask_out mask_out_number) cropped_padded_annotation))).

(** The one draw of a run and the generator after it. *)
Definition draw (minval maxval : F32.t) (g : generator) : F32.t :=
  F32.add (F32.mul (Uint32ToFloat (fst (next_uint32 g))) (F32.sub maxval minval)) minval.

Definition advance (g : generator) : generator := snd (next_uint32 g).

(** The scaled shape of one axis of length [a], for an input of height [h]
    and width [w]. *)
Definition scaled_axis (a h w oh ow : Z) (r : F32.t) : Z :=
  F32.to_int32
    (F32.round
       (F32.mul (F32.of_Z a)
          (F32.mul (F32.min (F32.div (F32.of_Z oh) (F32.of_Z h))
                            (F32.div (F32.of_Z ow) (F32.of_Z w))) r))).

(** The image [tf.image.resize_nearest_neighbor] returns, and the image
    [tf.image.resize_image_with_crop_or_pad] returns, when nothing is
    raised. *)
Definition resized {A : Type} (t : tensor3 A) (h w sh sw : Z) : tensor3 A :=
  ResizeNearestNeighbor t h w (CalculateResizeScale h sh) (CalculateResizeScale w sw) sh sw.

Definition crop_or_pad {A : Type} (zero : A) (image : tensor3 A)
    (target_height target_width : Z) : tensor3 A :=
  let width_diff := target_width - width image in
  let height_diff := target_height - height image in
  array_pad zero
    (array_slice image (Z.max (- height_diff / 2) 0) (Z.max (- width_diff / 2) 0)
       (Z.min target_height (height image)) (Z.min target_width (width image)))
    (Z.max (height_diff / 2) 0)
    (target_height - Z.max (height_diff / 2) 0 - Z.min target_height (height image))
    (Z.max (width_diff / 2) 0)
    (target_width - Z.max (width_diff / 2) 0 - Z.min target_width (width image)).

(** Lines 97 and 99 on one element. *)
Definition unshift (mask_out_number : Z) (v : Z) : Z :=
  Int32.sub (Int32.add v (mask_out mask_out_number v)) 1.

(** ** The pipeline of the specification *)

(** [resizeNearest] and [centerCropOrPad], the two helper operations the
    specification names for the TensorFlow primitives. *)
Definition resizeNearest {A : Type} (array : tensor3 A) (newSpatialShape : list Z)
  : result (tensor3 A) :=
  batched <- resize_nearest_neighbor (expand_dims array) newSpatialShape ;;
  squeeze batched.

Definition centerCropOrPad {A : Type} (array : tensor3 A) (targetShape : Z * Z)
    (fillValue : A) : result (tensor3 A) :=
  resize_image_with_crop_or_pad fillValue array (fst targetShape) (snd targetShape).

(** Steps 2, 4 and 5 of the specification, one axis at a time. *)
Definition spec_scale_axis (outputShape_axis inputShape_axis : Z) : F32.t :=
  F32.div (F32.of_Z outputShape_axis) (F32.of_Z inputShape_axis).

Definition spec_fitScale (inputShape outputShape : Z * Z) : F32.t :=
  F32.min (spec_scale_axis (fst outputShape) (fst inputShape))
          (spec_scale_axis (snd outputShape) (snd inputShape)).

Definition spec_finalScale (inputShape outputShape : Z * Z) (r : F32.t) : F32.t :=
  F32.mul (spec_fitScale inputShape outputShape) r.

(** [round]: the integer nearest to a float, the even one of two that are
    equally near; an infinity and NaN have none. *)
Definition spec_round (x : F32.t) : option Z :=
  match x with
  | S754_zero _ => Some 0
  | S754_finite s m e => Some (F32.signed s (F32.nearest_even_mag m e))
  | _ => None
  end.

Definition spec_scaledShape (inputShape outputShape : Z * Z) (r : F32.t)
  : option Z * option Z :=
  let finalScale := spec_finalScale inputShape outputShape r in
  (spec_round (F32.mul (F32.of_Z (fst inputShape)) finalScale),
   spec_round (F32.mul (F32.of_Z (snd inputShape)) finalScale)).

(** A shape is a vector of int32: what a rounded value is as an int32 (the
    least int32 when it has no int32 value). *)
Definition cast_int32 (n : option Z) : Z :=
  match n with
  | Some n => if Int32.in_range n then n else Int32.min_int
  | None => Int32.min_int
  end.

(** *** The minimum of two scales, as numbers

    Step 4 of the specification takes the minimum of the two fit scales.
    What the smaller of two floats is does not depend on how a program
    compares them: a finite float is the number [m * 2^e] with its sign, and
    two finite floats are compared at the smaller of their exponents, in
    units of [2^e0], where both are integers. *)
Definition spec_exponent (x : F32.t) : Z :=
  match x with
  | S754_finite _ _ e => e
  | _ => 0
  end.

(** The number [x] in units of [2^e0], for [e0] at most the exponent of
    [x]; an infinity and NaN are no numbers. *)
Definition spec_units (e0 : Z) (x : F32.t) : option Z :=
  match x with
  | S754_zero _ => Some 0
  | S754_finite s m e => Some (F32.signed s (Z.pos m * 2 ^ (e - e0)))
  | _ => None
  end.

(** The smaller of two numbers, the first of two equal ones. *)
Definition spec_min (x y : F32.t) : option F32.t :=
  let e0 := Z.min (spec_exponent x) (spec_exponent y) in
  match spec_units e0 x, spec_units e0 y with
  | Some a, Some b => Some (if a <=? b then x else y)
  | _, _ => None
  end.

(** Step 4: the smaller of the two fit scales of step 2. *)
Definition spec_smallerScale (inputShape outputShape : Z * Z) : option F32.t :=
  spec_min (spec_scale_axis (fst outputShape) (fst inputShape))
           (spec_scale_axis (snd outputShape) (snd inputShape)).


(** Steps 1 to 9 of the specification, for the draw [r] of step 3: the
    annotation is shifted first, and the shifted annotation is resized. *)
Definition spec_transform {A : Type} (zero : A) (image : tensor3 A)
    (annotation : tensor3 Z) (outputShape : Z * Z) (r : F32.t) (maskOutNumber : Z)
  : result (tensor3 A * tensor3 Z) :=
  let shifted := tmap (fun v => Int32.add v 1) (tmap Int32.wrap annotation) in
  let inputShape := (height image, width image) in
  let scaledShape := spec_scaledShape inputShape outputShape r in
  let size := [cast_int32 (fst scaledShape); cast_int32 (snd scaledShape)] in
  resizedImage <- resizeNearest image size ;;
  resizedAnnotation <- resizeNearest shifted size ;;
  croppedImage <- centerCropOrPad resizedImage outputShape zero ;;
  croppedAnnotation <- centerCropOrPad resizedAnnotation outputShape 0 ;;
  Ok (croppedImage,
      tmap (fun v => Int32.sub (Int32.add v (Int32.mul (is_pad v) (maskOutNumber + 1))) 1)
        croppedAnnotation).

(** ** Inputs and outputs *)

(** A tensor of height [h], width [w] and [c] channels. *)
Definition Shape {A : Type} (t : tensor3 A) (h w c : Z) : Prop :=
  height t = h /\
  Forall (fun row => Z.of_nat (length row) = w /\
                     Forall (fun px => Z.of_nat (length px) = c) row) t.

Definition shape_is {A : Type} (t : tensor3 A) (h w c : Z) : bool :=
  (height t =? h) &&
  forallb (fun row => (Z.of_nat (length row) =? w) &&
                      forallb (fun px => Z.of_nat (length px) =? c) row) t.

(** The values of a tensor, and its pixel in row [i] and column [j]. *)
Definition values {A : Type} (t : tensor3 A) : list A := concat (concat t).

Definition pixel_at {A : Type} (t : tensor3 A) (i j : Z) : list A :=
  nth (Z.to_nat j) (nth (Z.to_nat i) t []) [].

(** The class ids of a valid annotation: non-negative int32 values. *)
Definition class_ids_ok (ann : tensor3 Z) : bool :=
  forallb (fun v => (0 <=? v) && (v <=? Int32.max_int)) (values ann).

(** Where index [i] of an axis cropped or padded from [size] to [target]
    comes from: an index of the axis before, or the padding. *)
Definition source (target size i : Z) : option Z :=
  let diff := target - size in
  let offset_crop := Z.max (- diff / 2) 0 in
  let offset_pad := Z.max (diff / 2) 0 in
  if (offset_pad <=? i) && (i <? offset_pad + Z.min target size)
  then Some (i - offset_pad + offset_crop)
  else None.

(** A generator that produces the word [x] forever. *)
Definition const_gen (x : Z) : generator := mkGenerator (fun _ => x) 0.

(** A 2x2 image and annotation, and what the transform returns for them at
    output shape (4, 4) when both bounds of the draw are 0.5. *)
Definition sample_image : tensor3 Z := [[[5]; [6]]; [[7]; [8]]].
Definition sample_annotation : tensor3 Z := [[[1]; [1]]; [[1]; [1]]].
Definition sample_out_image : tensor3 Z :=
  [[[0]; [0]; [0]; [0]];
   [[0]; [5]; [6]; [0]];
   [[0]; [7]; [8]; [0]];
   [[0]; [0]; [0]; [0]]].
Definition sample_out_annotation : tensor3 Z :=
  [[[255]; [255]; [255]; [255]];
   [[255]; [1]; [1]; [255]];
   [[255]; [1]; [1]; [255]];
   [[255]; [255]; [255]; [255]]].

(** An image and an annotation of one column and [2^24 + 1] rows, the
    least height float32 does not hold. *)
Definition tall_height : Z := 16777217.
Definition tall_image : tensor3 Z := repeat [[7]] (Z.to_nat tall_height).
Definition tall_annotation : tensor3 Z := repeat [[0]] (Z.to_nat tall_height).

Ltac bool_lia :=
  symmetry; rewrite ?andb_true_iff, ?Z.ltb_lt, ?Z.leb_le; lia.

(** * Part II: the properties *)

(** ** The model at work *)

Example of_Z_3 : F32.of_Z 3 = S754_finite false 12582912 (-22).
Proof. reflexivity. Qed.

Example round_half : F32.to_int32 (F32.round F32.half) = 0.
Proof. reflexivity. Qed.

Example round_3half :
  F32.to_int32 (F32.round (F32.div (F32.of_Z 3) (F32.of_Z 2))) = 2.
Proof. reflexivity. Qed.

Example round_5half :
  F32.to_int32 (F32.round (F32.div (F32.of_Z 5) (F32.of_Z 2))) = 2.
Proof. reflexivity. Qed.

Example of_Z_tall_height : F32.to_int32 (F32.of_Z tall_height) = tall_height - 1.
Proof. vm_compute. reflexivity. Qed.

Example draw_between_bounds :
  draw F32.half F32.two (const_gen 4194304) = S754_finite false 10485760 (-23).
Proof. vm_compute. reflexivity. Qed.

Example run_pad :
  fst (scale_jittering_tensor_with_fixed_size_output 0 sample_image sample_annotation
         [4; 4] F32.half F32.half 255 (const_gen 12345))
  = Ok (sample_out_image, sample_out_annotation).
Proof. vm_compute. reflexivity. Qed.

Example run_crop :
  fst (scale_jittering_tensor_with_fixed_size_output 0
         [[[11]; [12]; [13]; [14]]; [[21]; [22]; [23]; [24]];
          [[31]; [32]; [33]; [34]]; [[41]; [42]; [43]; [44]]]
         [[[0]; [0]; [1]; [1]]; [[0]; [5]; [6]; [1]];
          [[2]; [7]; [8]; [3]]; [[2]; [2]; [3]; [3]]]
         [2; 2] F32.two F32.two 255 (const_gen 12345))
  = Ok ([[[22]; [23]]; [[32]; [33]]], [[[5]; [6]]; [[7]; [8]]]).
Proof. vm_compute. reflexivity. Qed.

Example run_pad_keeps_class_zero :
  fst (scale_jittering_tensor_with_fixed_size_output 0
         [[[11]; [12]]; [[21]; [22]]] [[[0]; [1]]; [[2]; [0]]]
         [2; 4] F32.one F32.one 255 (const_gen 12345))
  = Ok ([[[0]; [11]; [12]; [0]]; [[0]; [21]; [22]; [0]]],
        [[[255]; [0]; [1]; [255]]; [[255]; [2]; [0]; [255]]]).
Proof. vm_compute. reflexivity. Qed.

(** * Shapes *)

Lemma shape_is_Shape {A : Type} (t : tensor3 A) h w c :
  shape_is t h w c = true <-> Shape t h w c.
Proof.
  unfold shape_is, Shape.
  rewrite andb_true_iff, Z.eqb_eq, forallb_forall, Forall_forall.
  split; intros [Hh Hr]; split; auto; intros row Hin; specialize (Hr row Hin).
  - rewrite andb_true_iff, Z.eqb_eq, forallb_forall in Hr.
    destruct Hr as [Hw Hp]. split; auto.
    rewrite Forall_forall. intros px Hpx. apply Z.eqb_eq. auto.
  - destruct Hr as [Hw Hp]. rewrite andb_true_iff, Z.eqb_eq, forallb_forall.
    split; auto. rewrite Forall_forall in Hp.
    intros px Hpx. apply Z.eqb_eq. auto.
Qed.

Lemma Shape_dims {A : Type} (t : tensor3 A) h w c :
  Shape t h w c -> 0 < h -> 0 < w ->
  height t = h /\ width t = w /\ depth t = c.
Proof.
  intros [Hh Hr] Hhp Hwp. split; auto.
  unfold height, width, depth in *.
  destruct t as [|row t]; simpl in *; [lia|].
  inversion Hr as [|? ? [Hw Hp] _]; subst.
  split; auto.
  destruct row as [|px row]; simpl in *; [lia|].
  inversion Hp; subst; auto.
Qed.

Lemma Shape_nth {A : Type} (t : tensor3 A) h w c i j :
  Shape t h w c -> (i < Z.to_nat h)%nat -> (j < Z.to_nat w)%nat ->
  Z.of_nat (length (nth j (nth i t []) [])) = c.
Proof.
  intros [Hh Hr] Hi Hj. unfold height in Hh.
  rewrite Forall_forall in Hr.
  assert (Hin : In (nth i t []) t) by (apply nth_In; lia).
  destruct (Hr _ Hin) as [Hw Hp].
  rewrite Forall_forall in Hp. apply Hp. apply nth_In. lia.
Qed.

Lemma Shape_tmap {A B : Type} (f : A -> B) (t : tensor3 A) h w c :
  Shape t h w c -> Shape (tmap f t) h w c.
Proof.
  intros [Hh Hr]. unfold Shape, tmap, height in *. rewrite length_map.
  split; auto.
  rewrite Forall_forall in *. intros row' Hin.
  apply in_map_iff in Hin. destruct Hin as [row [<- Hin]].
  destruct (Hr row Hin) as [Hw Hp]. rewrite length_map. split; auto.
  rewrite Forall_forall in *. intros px' Hpx.
  apply in_map_iff in Hpx. destruct Hpx as [px [<- Hpx]].
  rewrite length_map. auto.
Qed.

Lemma range_length n : length (range n) = Z.to_nat n.
Proof. unfold range. now rewrite length_map, length_seq. Qed.

Lemma nearest_index_bound in_size scale y :
  0 < in_size -> (Z.to_nat (nearest_index in_size scale y) < Z.to_nat in_size)%nat.
Proof. unfold nearest_index. lia. Qed.

Lemma Shape_ResizeNearestNeighbor {A : Type} (t : tensor3 A) h w c hs ws oh ow :
  Shape t h w c -> 0 < h -> 0 < w -> 0 <= oh -> 0 <= ow ->
  Shape (ResizeNearestNeighbor t h w hs ws oh ow) oh ow c.
Proof.
  intros Ht Hh Hw Hoh How. unfold Shape, ResizeNearestNeighbor, height.
  rewrite length_map, range_length. split; [lia|].
  rewrite Forall_forall. intros row' Hin.
  apply in_map_iff in Hin. destruct Hin as [y [<- _]].
  rewrite length_map, range_length. split; [lia|].
  rewrite Forall_forall. intros px' Hpx.
  apply in_map_iff in Hpx. destruct Hpx as [x [<- _]].
  eapply Shape_nth; eauto using nearest_index_bound.
Qed.

Lemma In_firstn {A : Type} (x : A) n l : In x (firstn n l) -> In x l.
Proof.
  intros H. rewrite <- (firstn_skipn n l). apply in_or_app. now left.
Qed.

Lemma In_skipn {A : Type} (x : A) n l : In x (skipn n l) -> In x l.
Proof.
  intros H. rewrite <- (firstn_skipn n l). apply in_or_app. now right.
Qed.

Lemma Shape_array_slice {A : Type} (t : tensor3 A) h w c bh bw sh sw :
  Shape t h w c -> 0 <= bh -> 0 <= bw -> 0 <= sh -> 0 <= sw ->
  sh + bh <= h -> sw + bw <= w ->
  Shape (array_slice t bh bw sh sw) sh sw c.
Proof.
  intros [Hh Hr] Hbh Hbw Hsh Hsw Hfh Hfw.
  unfold Shape, array_slice, height in *.
  rewrite length_map, length_firstn, length_skipn. split; [lia|].
  rewrite Forall_forall in *. intros row' Hin.
  apply in_map_iff in Hin. destruct Hin as [row [<- Hin]].
  apply In_firstn in Hin. apply In_skipn in Hin.
  destruct (Hr row Hin) as [Hw Hp].
  rewrite length_firstn, length_skipn. split; [lia|].
  rewrite Forall_forall in *. intros px Hpx.
  apply Hp. eapply In_skipn, In_firstn, Hpx.
Qed.

Lemma Shape_array_pad {A : Type} (zero : A) (t : tensor3 A) h w c top bottom left right :
  Shape t h w c -> 0 < h -> 0 < w -> 0 <= c ->
  0 <= top -> 0 <= bottom -> 0 <= left -> 0 <= right ->
  Shape (array_pad zero t top bottom left right) (top + h + bottom) (left + w + right) c.
Proof.
  intros Ht Hh Hw Hc Htop Hbot Hleft Hright.
  destruct (Shape_dims _ _ _ _ Ht Hh Hw) as (Eh & Ew & Ec).
  destruct Ht as [_ Hr].
  unfold Shape, array_pad. rewrite Ew, Ec. unfold height in *.
  rewrite !length_app, !repeat_length, length_map. split; [lia|].
  assert (Hblank : forall n, Forall (fun px : list A => Z.of_nat (length px) = c)
                               (repeat (repeat zero (Z.to_nat c)) n)).
  { intros n. rewrite Forall_forall. intros px Hpx.
    apply repeat_spec in Hpx. subst px. rewrite repeat_length. lia. }
  assert (Hrow : forall n, Forall
            (fun row : list (list A) => Z.of_nat (length row) = left + w + right /\
               Forall (fun px => Z.of_nat (length px) = c) row)
            (repeat (repeat (repeat zero (Z.to_nat c)) (Z.to_nat (left + w + right))) n)).
  { intros n. rewrite Forall_forall. intros row Hin.
    apply repeat_spec in Hin. subst row. rewrite repeat_length. split; [lia|auto]. }
  rewrite !Forall_app. repeat split; auto.
  rewrite Forall_forall in *. intros row' Hin.
  apply in_map_iff in Hin. destruct Hin as [row [<- Hin]].
  destruct (Hr row Hin) as [Hlen Hp].
  rewrite !length_app, !repeat_length. split; [lia|].
  rewrite !Forall_app. repeat split; auto.
Qed.

Lemma assert_true e : assert true e = Ok tt.
Proof. reflexivity. Qed.

Lemma half_bounds d : (0 <= d -> 0 <= d / 2 <= d) /\ (d < 0 -> d / 2 < 0).
Proof.
  pose proof (Z.div_mod d 2 ltac:(lia)).
  pose proof (Z.mod_pos_bound d 2 ltac:(lia)). lia.
Qed.

Lemma resize_image_with_crop_or_pad_ok {A : Type} (zero : A) (t : tensor3 A) h w c th tw :
  Shape t h w c -> 0 < h -> 0 < w -> 0 < c -> 0 < th -> 0 < tw ->
  resize_image_with_crop_or_pad zero t th tw = Ok (crop_or_pad zero t th tw) /\
  Shape (crop_or_pad zero t th tw) th tw c.
Proof.
  intros Ht Hh Hw Hc Hth Htw.
  destruct (Shape_dims _ _ _ _ Ht Hh Hw) as (Eh & Ew & Ec).
  pose proof (half_bounds (th - h)) as [Hh1 Hh2].
  pose proof (half_bounds (- (th - h))) as [Hh3 Hh4].
  pose proof (half_bounds (tw - w)) as [Hw1 Hw2].
  pose proof (half_bounds (- (tw - w))) as [Hw3 Hw4].
  assert (Hs : Shape (array_slice t (Z.max (- (th - h) / 2) 0) (Z.max (- (tw - w) / 2) 0)
                        (Z.min th h) (Z.min tw w)) (Z.min th h) (Z.min tw w) c).
  { apply Shape_array_slice with (h := h) (w := w); auto; lia. }
  destruct (Shape_dims _ _ _ _ Hs ltac:(lia) ltac:(lia)) as (Esh & Esw & Esc).
  split.
  - unfold resize_image_with_crop_or_pad, crop_to_bounding_box, pad_to_bounding_box,
      Check3DImage, crop_or_pad.
    rewrite Eh, Ew, Ec.
    replace ((0 <? h) && (0 <? w) && (0 <? c)) with true by bool_lia.
    replace (0 <? tw) with true by bool_lia. replace (0 <? th) with true by bool_lia.
    cbn [assert bind].
    replace (0 <=? Z.max (- (tw - w) / 2) 0) with true by bool_lia.
    replace (0 <=? Z.max (- (th - h) / 2) 0) with true by bool_lia.
    replace (0 <? Z.min tw w) with true by bool_lia.
    replace (0 <? Z.min th h) with true by bool_lia.
    replace (Z.min tw w + Z.max (- (tw - w) / 2) 0 <=? w) with true by bool_lia.
    replace (Z.min th h + Z.max (- (th - h) / 2) 0 <=? h) with true by bool_lia.
    cbn [assert bind].
    rewrite Esh, Esw, Esc.
    replace ((0 <? Z.min th h) && (0 <? Z.min tw w) && (0 <? c)) with true by bool_lia.
    replace (0 <=? Z.max ((th - h) / 2) 0) with true by bool_lia.
    replace (0 <=? Z.max ((tw - w) / 2) 0) with true by bool_lia.
    replace (0 <=? tw - Z.max ((tw - w) / 2) 0 - Z.min tw w) with true by bool_lia.
    replace (0 <=? th - Z.max ((th - h) / 2) 0 - Z.min th h) with true by bool_lia.
    reflexivity.
  - unfold crop_or_pad. rewrite Eh, Ew.
    eapply Shape_array_pad with (zero := zero)
      (top := Z.max ((th - h) / 2) 0)
      (bottom := th - Z.max ((th - h) / 2) 0 - Z.min th h)
      (left := Z.max ((tw - w) / 2) 0)
      (right := tw - Z.max ((tw - w) / 2) 0 - Z.min tw w) in Hs; try lia.
    replace (Z.max ((th - h) / 2) 0 + Z.min th h +
             (th - Z.max ((th - h) / 2) 0 - Z.min th h)) with th in Hs by lia.
    replace (Z.max ((tw - w) / 2) 0 + Z.min tw w +
             (tw - Z.max ((tw - w) / 2) 0 - Z.min tw w)) with tw in Hs by lia.
    exact Hs.
Qed.

(** * The transform when nothing is raised *)

Lemma scaled_input_shape_of_axes h w oh ow r :
  scaled_input_shape_of [h; w] [oh; ow] [r]
  = [scaled_axis h h w oh ow r; scaled_axis w h w oh ow r].
Proof. reflexivity. Qed.

Lemma map2_map_r {A B C : Type} (f : A -> B -> C) (g : A -> B) l :
  map2 f l (map g l) = map (fun a => f a (g a)) l.
Proof. induction l; simpl; congruence. Qed.

Lemma tmap2_tmap_r {A B C : Type} (f : A -> B -> C) (g : A -> B) t :
  tmap2 f t (tmap g t) = tmap (fun a => f a (g a)) t.
Proof.
  unfold tmap2, tmap.
  induction t as [|row t IH]; simpl; [reflexivity|]. f_equal; [|exact IH].
  induction row as [|px row IHr]; simpl; [reflexivity|]. f_equal; [|exact IHr].
  apply map2_map_r.
Qed.

Lemma tmap_tmap {A B C : Type} (f : A -> B) (g : B -> C) t :
  tmap g (tmap f t) = tmap (fun a => g (f a)) t.
Proof.
  unfold tmap. rewrite map_map. apply map_ext. intros row.
  rewrite map_map. apply map_ext. intros px. apply map_map.
Qed.

Section TransformOk.

Context {A : Type}.
Variable zero : A.
Variables (img : tensor3 A) (ann : tensor3 Z).
Variables (h w c oh ow : Z) (r : F32.t) (mask_out_number : Z).

Hypothesis img_shape : Shape img h w c.
Hypothesis ann_shape : Shape ann h w 1.
Hypothesis h_pos : 0 < h.
Hypothesis w_pos : 0 < w.
Hypothesis c_pos : 0 < c.

Let sh := scaled_axis h h w oh ow r.
Let sw := scaled_axis w h w oh ow r.

Lemma transform_raises :
  sh <= 0 \/ sw <= 0 ->
  scale_jittering_with_rand_var zero img ann [oh; ow] [r] mask_out_number
  = Raise (InvalidArgumentError "output dimensions must be positive").
Proof.
  intros Hs.
  destruct (Shape_dims _ _ _ _ img_shape h_pos w_pos) as (Eh & Ew & Ec).
  unfold scale_jittering_with_rand_var, expand_dims.
  cbn [shape slice hd skipn firstn Nat.sub].
  rewrite Eh, Ew, scaled_input_shape_of_axes. fold sh sw.
  unfold resize_nearest_neighbor at 1.
  replace ((0 <? sh) && (0 <? sw)) with false; [reflexivity|].
  symmetry. apply andb_false_iff. rewrite !Z.ltb_ge. exact Hs.
Qed.

Lemma transform_returns :
  0 < sh -> 0 < sw -> 0 < oh -> 0 < ow ->
  scale_jittering_with_rand_var zero img ann [oh; ow] [r] mask_out_number
  = Ok (crop_or_pad zero (resized img h w sh sw) oh ow,
        tmap (unshift mask_out_number)
          (crop_or_pad 0
             (tmap (fun v => Int32.add v 1) (resized (tmap Int32.wrap ann) h w sh sw))
             oh ow)).
Proof.
  intros Hsh Hsw Hoh How.
  destruct (Shape_dims _ _ _ _ img_shape h_pos w_pos) as (Eh & Ew & Ec).
  pose proof (Shape_tmap Int32.wrap _ _ _ _ ann_shape) as Hwa.
  destruct (Shape_dims _ _ _ _ Hwa h_pos w_pos) as (Eh' & Ew' & Ec').
  unfold scale_jittering_with_rand_var, expand_dims.
  cbn [shape slice hd skipn firstn Nat.sub map].
  rewrite Eh, Ew, scaled_input_shape_of_axes. fold sh sw.
  unfold resize_nearest_neighbor. cbn [hd map].
  rewrite Eh, Ew, Ec, Eh', Ew', Ec'.
  replace ((0 <? sh) && (0 <? sw)) with true by bool_lia.
  replace ((0 <? h) && (0 <? w)) with true by bool_lia.
  replace (0 <? c) with true by bool_lia.
  cbn [assert bind Z.ltb Z.compare squeeze nth].
  pose proof (Shape_ResizeNearestNeighbor img h w c
                (CalculateResizeScale h sh) (CalculateResizeScale w sw) sh sw
                img_shape h_pos w_pos ltac:(lia) ltac:(lia)) as Hri.
  pose proof (Shape_ResizeNearestNeighbor (tmap Int32.wrap ann) h w 1
                (CalculateResizeScale h sh) (CalculateResizeScale w sw) sh sw
                Hwa h_pos w_pos ltac:(lia) ltac:(lia)) as Hra.
  apply (Shape_tmap (fun v => Int32.add v 1)) in Hra.
  destruct (resize_image_with_crop_or_pad_ok zero _ _ _ _ oh ow Hri Hsh Hsw c_pos Hoh How)
    as [-> _].
  destruct (resize_image_with_crop_or_pad_ok 0 _ _ _ _ oh ow Hra Hsh Hsw ltac:(lia) Hoh How)
    as [-> _].
  cbn [bind]. unfold resized. rewrite tmap2_tmap_r, tmap_tmap. reflexivity.
Qed.

End TransformOk.

(** * float32 facts *)

Module F32Facts.

Lemma digits2_pos_shiftl m k :
  digits2_pos (Pos.iter xO m k) = (digits2_pos m + k)%positive.
Proof.
  induction k using Pos.peano_ind.
  - simpl. lia.
  - rewrite Pos.iter_succ. simpl. rewrite IHk. lia.
Qed.

Lemma Zpos_shiftl m k : Z.pos (Pos.iter xO m k) = Z.pos m * 2 ^ Z.pos k.
Proof.
  induction k using Pos.peano_ind.
  - simpl. lia.
  - rewrite Pos.iter_succ, Pos2Z.inj_succ, Z.pow_succ_r by lia.
    rewrite Pos2Z.inj_xO, IHk. lia.
Qed.

(** A positive integer of at most 24 bits, scaled by a power of two within
    the normal range, is a float: nothing is rounded. *)
Lemma binary_round_exact s m e :
  let d := Z.pos (digits2_pos m) in
  d <= 24 -> -149 <= e + d - 24 <= 104 ->
  binary_round F32.prec F32.emax s m e
  = S754_finite s (Pos.shiftl m (Z.to_N (24 - d))) (e + d - 24).
Proof.
  intros d Hd He.
  unfold binary_round, shl_align.
  assert (Hf : fexp F32.prec F32.emax (Z.pos (digits2_pos m) + e) = e + d - 24).
  { unfold fexp, emin, F32.prec, F32.emax. fold d. lia. }
  rewrite Hf.
  assert (Haux : forall mz ez, Z.pos (digits2_pos mz) = 24 -> ez = e + d - 24 ->
             binary_round_aux F32.prec F32.emax s (Z.pos mz) ez loc_Exact
             = S754_finite s mz (e + d - 24)).
  { intros mz ez Hmz ->. unfold binary_round_aux, shr_fexp.
    cbn [Zdigits2 shr_record_of_loc]. rewrite Hmz.
    assert (Hf2 : fexp F32.prec F32.emax (24 + (e + d - 24)) - (e + d - 24) = 0).
    { unfold fexp, emin, F32.prec, F32.emax. lia. }
    rewrite Hf2. cbn [shr shr_m loc_of_shr_record round_nearest_even Zdigits2
                      shr_record_of_loc].
    rewrite Hmz, Hf2. cbn [shr shr_m].
    replace (e + d - 24 <=? F32.emax - F32.prec) with true; [reflexivity|].
    symmetry. apply Z.leb_le. unfold F32.emax, F32.prec. lia. }
  destruct (Z.eq_dec d 24) as [E|E].
  - replace (e + d - 24 - e) with 0 by lia.
    replace (24 - d) with 0 by lia. cbn [Z.to_N Pos.shiftl].
    apply Haux; [exact E | lia].
  - destruct (e + d - 24 - e) as [|p|p] eqn:Ep; try lia.
    replace (24 - d) with (Z.pos p) by lia. cbn [Z.to_N Pos.shiftl].
    apply Haux; [|reflexivity]. rewrite digits2_pos_shiftl. fold d. lia.
Qed.

Lemma digits2_pos_bounds m :
  2 ^ (Z.pos (digits2_pos m) - 1) <= Z.pos m < 2 ^ Z.pos (digits2_pos m).
Proof.
  assert (Hstep : forall d, 0 < d ->
            2 ^ (Z.succ d - 1) = 2 * 2 ^ (d - 1) /\ 2 ^ Z.succ d = 2 * 2 ^ d).
  { intros d Hd. split.
    - replace (Z.succ d - 1) with (Z.succ (d - 1)) by lia.
      apply Z.pow_succ_r. lia.
    - apply Z.pow_succ_r. lia. }
  induction m as [m IH|m IH|].
  - change (digits2_pos m~1) with (Pos.succ (digits2_pos m)).
    rewrite Pos2Z.inj_succ, Pos2Z.inj_xI.
    pose proof (Hstep (Z.pos (digits2_pos m)) ltac:(lia)) as [E1 E2].
    rewrite E1, E2. lia.
  - change (digits2_pos m~0) with (Pos.succ (digits2_pos m)).
    rewrite Pos2Z.inj_succ, (Pos2Z.inj_xO m).
    pose proof (Hstep (Z.pos (digits2_pos m)) ltac:(lia)) as [E1 E2].
    rewrite E1, E2. lia.
  - simpl. lia.
Qed.

Lemma digits2_pos_le m n : 0 <= n -> Z.pos m < 2 ^ n -> Z.pos (digits2_pos m) <= n.
Proof.
  intros Hn Hm. pose proof (digits2_pos_bounds m) as [Hlo _].
  destruct (Z_le_gt_dec (Z.pos (digits2_pos m)) n) as [|Hgt]; [assumption|exfalso].
  assert (2 ^ n <= 2 ^ (Z.pos (digits2_pos m) - 1)) by (apply Z.pow_le_mono_r; lia).
  lia.
Qed.

Lemma Zpos_Pos_shiftl m k :
  0 <= k -> Z.pos (Pos.shiftl m (Z.to_N k)) = Z.pos m * 2 ^ k.
Proof.
  intros Hk. destruct k as [|k|k]; try lia; cbn [Z.to_N Pos.shiftl].
  - lia.
  - apply Zpos_shiftl.
Qed.

Lemma digits2_pos_Pos_shiftl m k :
  0 <= k -> Z.pos (digits2_pos (Pos.shiftl m (Z.to_N k))) = Z.pos (digits2_pos m) + k.
Proof.
  intros Hk. destruct k as [|k|k]; try lia; cbn [Z.to_N Pos.shiftl].
  - lia.
  - rewrite digits2_pos_shiftl. lia.
Qed.

Lemma of_Z_represents z : 0 < z < 2 ^ 24 -> F32.represents z (F32.of_Z z).
Proof.
  intros Hz. destruct z as [|m|m]; try lia.
  unfold F32.of_Z, binary_normalize.
  pose proof (digits2_pos_le m 24 ltac:(lia) ltac:(lia)) as Hd.
  rewrite binary_round_exact by lia.
  constructor.
  - rewrite digits2_pos_Pos_shiftl by lia. lia.
  - lia.
  - rewrite Zpos_Pos_shiftl by lia. f_equal. f_equal. lia.
Qed.

Lemma div_eucl_exact a b : 0 < b -> Z.div_eucl (b * a) b = (a, 0).
Proof.
  intros Hb.
  pose proof (Z_div_mult_full a b ltac:(lia)) as Hq.
  pose proof (Z_mod_mult a b) as Hr.
  unfold Z.div, Z.modulo in Hq, Hr. rewrite (Z.mul_comm b a).
  destruct (Z.div_eucl (a * b) b) as [q r]. congruence.
Qed.

Lemma div_self z x : F32.represents z x -> F32.div x x = F32.one.
Proof.
  intros [m e Hm He Hv].
  unfold F32.div, SFdiv, SFdiv_core_binary. cbn [Zdigits2]. rewrite Hm.
  replace (24 + e - (24 + e)) with 0 by lia.
  replace (e - e) with 0 by lia.
  change (Z.min (fexp F32.prec F32.emax 0) 0) with (-24).
  change (0 - -24) with 24.
  cbv beta iota.
  rewrite Z.shiftl_mul_pow2 by lia.
  rewrite div_eucl_exact by lia.
  replace (new_location (Z.pos m) 0) with loc_Exact.
  - reflexivity.
  - unfold new_location, new_location_even, new_location_odd.
    destruct (Z.even (Z.pos m)); reflexivity.
Qed.

Lemma mul_one z x : F32.represents z x -> F32.mul x F32.one = x.
Proof.
  intros [m e Hm He Hv].
  unfold F32.mul, F32.one, SFmul, binary_round_aux, shr_fexp.
  cbn [xorb Zdigits2 shr_record_of_loc].
  rewrite (Pos.mul_comm m 8388608).
  change (8388608 * m)%positive with (Pos.iter xO m 23).
  rewrite digits2_pos_shiftl, Pos2Z.inj_add, Hm.
  replace (fexp F32.prec F32.emax (24 + 23 + (e + -23)) - (e + -23)) with 23
    by (unfold fexp, emin, F32.prec, F32.emax; lia).
  cbn [shr iter_pos shr_1 Pos.iter orb shr_m loc_of_shr_record round_nearest_even
       Zdigits2 shr_record_of_loc].
  rewrite Hm.
  replace (fexp F32.prec F32.emax (24 + (e + -23 + 23)) - (e + -23 + 23)) with 0
    by (unfold fexp, emin, F32.prec, F32.emax; lia).
  cbn [shr shr_m].
  replace (e + -23 + 23 <=? F32.emax - F32.prec) with true
    by (symmetry; apply Z.leb_le; unfold F32.emax, F32.prec; lia).
  f_equal. lia.
Qed.

Lemma floor_mag_represents z m e :
  0 < z -> -23 <= e <= 0 -> Z.pos m = z * 2 ^ (- e) -> F32.floor_mag m e = z.
Proof.
  intros Hz He Hv. unfold F32.floor_mag.
  destruct (0 <=? e) eqn:E.
  - apply Z.leb_le in E. replace e with 0 in * by lia.
    rewrite Hv. simpl. lia.
  - rewrite Hv. apply Z_div_mult_full.
    apply Z.pow_nonzero; lia.
Qed.

Lemma nearest_even_mag_represents z m e :
  0 < z -> -23 <= e <= 0 -> Z.pos m = z * 2 ^ (- e) -> F32.nearest_even_mag m e = z.
Proof.
  intros Hz He Hv. unfold F32.nearest_even_mag.
  destruct (0 <=? e) eqn:E.
  - apply Z.leb_le in E. replace e with 0 in * by lia.
    rewrite Hv. simpl. lia.
  - apply Z.leb_gt in E.
    assert (Hp : 0 < 2 ^ (- e)) by (apply Z.pow_pos_nonneg; lia).
    rewrite Hv, Z_mod_mult, Z_div_mult_full by lia.
    cbn [Z.mul]. destruct (0 ?= 2 ^ (- e)) eqn:C; auto.
    + apply Z.compare_eq in C. lia.
    + apply Z.compare_gt_iff in C. lia.
Qed.

Lemma to_int_represents wd z x :
  32 <= wd -> 0 < z < 2 ^ 24 -> F32.represents z x -> F32.to_int wd x = z.
Proof.
  intros Hw Hz [m e Hm He Hv]. unfold F32.to_int.
  rewrite (floor_mag_represents z) by (auto; lia). cbn [F32.signed].
  assert (2 ^ 24 <= 2 ^ (wd - 1)) by (apply Z.pow_le_mono_r; lia).
  assert (0 < 2 ^ (wd - 1)) by (apply Z.pow_pos_nonneg; lia).
  replace ((- 2 ^ (wd - 1) <=? z) && (z <? 2 ^ (wd - 1))) with true; [reflexivity|].
  symmetry. rewrite andb_true_iff, Z.leb_le, Z.ltb_lt. lia.
Qed.

Lemma round_of_Z z : 0 < z < 2 ^ 24 -> F32.round (F32.of_Z z) = F32.of_Z z.
Proof.
  intros Hz. pose proof (of_Z_represents z Hz) as Hof.
  inversion Hof as [m e Hm He Hv Heq]. unfold F32.round.
  destruct (0 <=? e) eqn:E; [reflexivity|].
  rewrite (nearest_even_mag_represents z) by (auto; lia).
  cbn [F32.signed]. exact (eq_sym Heq).
Qed.

Lemma floor_of_Z z : 0 < z < 2 ^ 24 -> F32.floor (F32.of_Z z) = F32.of_Z z.
Proof.
  intros Hz. pose proof (of_Z_represents z Hz) as Hof.
  inversion Hof as [m e Hm He Hv Heq]. unfold F32.floor.
  destruct (0 <=? e) eqn:E; [reflexivity|].
  rewrite (floor_mag_represents z) by (auto; lia).
  exact (eq_sym Heq).
Qed.

Lemma small_cases z :
  F32.small z -> z = 0 \/ z = 2 ^ 24 \/ 0 < z < 2 ^ 24.
Proof. unfold F32.small. lia. Qed.

Lemma div_self_of_Z z :
  F32.small z -> 0 < z -> F32.div (F32.of_Z z) (F32.of_Z z) = F32.one.
Proof.
  intros Hs Hz. destruct (small_cases z Hs) as [->| [->|H]]; [lia|reflexivity|].
  apply (div_self z), of_Z_represents, H.
Qed.

Lemma mul_one_of_Z z : F32.small z -> F32.mul (F32.of_Z z) F32.one = F32.of_Z z.
Proof.
  intros Hs. destruct (small_cases z Hs) as [->| [->|H]]; [reflexivity|reflexivity|].
  apply (mul_one z), of_Z_represents, H.
Qed.

Lemma to_int32_round_of_Z z : F32.small z -> F32.to_int32 (F32.round (F32.of_Z z)) = z.
Proof.
  intros Hs. destruct (small_cases z Hs) as [->| [->|H]]; [reflexivity|reflexivity|].
  rewrite round_of_Z by assumption.
  apply to_int_represents; [lia|assumption|]. apply of_Z_represents, H.
Qed.

Lemma to_int64_floor_of_Z z : F32.small z -> F32.to_int64 (F32.floor (F32.of_Z z)) = z.
Proof.
  intros Hs. destruct (small_cases z Hs) as [->| [->|H]]; [reflexivity|reflexivity|].
  rewrite floor_of_Z by assumption.
  apply to_int_represents; [lia|assumption|]. apply of_Z_represents, H.
Qed.

Lemma binary_normalize_finite k e :
  0 <= k < 2 ^ 24 -> -125 <= e <= 80 ->
  F32.is_finite (binary_normalize F32.prec F32.emax k e false) = true.
Proof.
  intros Hk He. destruct k as [|m|m]; try lia; [reflexivity|].
  unfold binary_normalize.
  pose proof (digits2_pos_le m 24 ltac:(lia) ltac:(lia)) as Hd.
  rewrite binary_round_exact by lia. reflexivity.
Qed.

Lemma sub_self s m e :
  F32.sub (S754_finite s m e) (S754_finite s m e) = S754_zero false.
Proof.
  unfold F32.sub, SFsub, shl_align. cbv zeta.
  rewrite Z.min_id, !Z.sub_diag. cbn [fst]. rewrite ?Z.sub_diag. reflexivity.
Qed.

Lemma mul_zero_r u s :
  F32.is_finite u = true -> exists s', F32.mul u (S754_zero s) = S754_zero s'.
Proof.
  destruct u; cbn; try discriminate; eauto.
Qed.

Lemma add_zero_l s' s m e :
  F32.add (S754_zero s') (S754_finite s m e) = S754_finite s m e.
Proof. reflexivity. Qed.

(** ** Products are floats of at most 24 bits *)

Lemma Zdigits2_log2 m : 0 < m -> Zdigits2 m = Z.log2 m + 1.
Proof.
  intros Hm. destruct m as [|p|p]; try lia. cbn [Zdigits2].
  pose proof (digits2_pos_bounds p) as [Hlo Hhi].
  symmetry. apply Z.add_move_r. apply Z.log2_unique; [lia|].
  replace (Z.succ (Z.pos (digits2_pos p) - 1)) with (Z.pos (digits2_pos p)) by lia.
  lia.
Qed.

Lemma Zdigits2_nonneg m : 0 <= Zdigits2 m.
Proof. destruct m; cbn [Zdigits2]; lia. Qed.

Lemma Zdigits2_shiftr m n :
  0 <= m -> 0 <= n -> Zdigits2 (Z.shiftr m n) <= Z.max 0 (Zdigits2 m - n).
Proof.
  intros Hm Hn.
  assert (Hs : 0 <= Z.shiftr m n) by (apply Z.shiftr_nonneg; lia).
  destruct (Z.eq_dec (Z.shiftr m n) 0) as [E|E].
  - rewrite E. cbn [Zdigits2]. lia.
  - assert (Hmp : 0 < m).
    { destruct (Z.eq_dec m 0) as [->|]; [|lia]. rewrite Z.shiftr_0_l in E. lia. }
    rewrite (Zdigits2_log2 (Z.shiftr m n)) by lia.
    rewrite (Zdigits2_log2 m) by lia.
    rewrite Z.log2_shiftr by lia.
    assert (0 < Z.log2 (Z.shiftr m n) \/ Z.shiftr m n = 1) as [Hl|Hl].
    { destruct (Z.eq_dec (Z.shiftr m n) 1); [now right|left].
      apply Z.log2_pos. lia. }
    + rewrite Z.log2_shiftr in Hl by lia. lia.
    + assert (Hge : n <= Z.log2 m).
      { destruct (Z_le_gt_dec n (Z.log2 m)); [assumption|].
        rewrite Z.shiftr_eq_0 in Hl; lia. }
      lia.
Qed.

Lemma iter_pos_iter {X : Type} (f : X -> X) p x : iter_pos f p x = Pos.iter f x p.
Proof.
  revert x. induction p as [p IH|p IH|]; intros x; cbn [iter_pos Pos.iter].
  - rewrite !IH. now rewrite <- !Pos.iter_swap.
  - now rewrite !IH.
  - reflexivity.
Qed.

Lemma shr_m_shr_1 r : 0 <= shr_m r -> shr_m (shr_1 r) = Z.shiftr (shr_m r) 1.
Proof.
  destruct r as [m b s]. cbn [shr_m]. intros Hm. rewrite <- Z.div2_spec.
  destruct m as [|[p|p|]|p]; try lia; reflexivity.
Qed.

Lemma shr_m_iter p r :
  0 <= shr_m r -> shr_m (Pos.iter shr_1 r p) = Z.shiftr (shr_m r) (Z.pos p).
Proof.
  intros Hr. induction p as [|p IH] using Pos.peano_ind.
  - cbn [Pos.iter]. now apply shr_m_shr_1.
  - rewrite Pos.iter_succ, shr_m_shr_1, IH.
    + rewrite Z.shiftr_shiftr by lia. f_equal. lia.
    + rewrite IH. apply Z.shiftr_nonneg. lia.
Qed.

Lemma shr_m_shr_record_of_loc m l : shr_m (shr_record_of_loc m l) = m.
Proof. destruct l as [|[| |]]; reflexivity. Qed.

Lemma shr_fexp_canonical m e l :
  0 <= m ->
  0 <= shr_m (fst (shr_fexp F32.prec F32.emax m e l)) /\
  Zdigits2 (shr_m (fst (shr_fexp F32.prec F32.emax m e l))) <= 24.
Proof.
  intros Hm. unfold shr_fexp, shr.
  pose proof (Zdigits2_nonneg m) as Hd.
  assert (Hn : Zdigits2 m - 24 <=
               fexp F32.prec F32.emax (Zdigits2 m + e) - e).
  { unfold fexp, emin, F32.prec, F32.emax. lia. }
  destruct (fexp F32.prec F32.emax (Zdigits2 m + e) - e) as [|p|p] eqn:En;
    cbn [fst]; rewrite ?shr_m_shr_record_of_loc; try (split; lia).
  rewrite iter_pos_iter, shr_m_iter by (rewrite shr_m_shr_record_of_loc; lia).
  rewrite shr_m_shr_record_of_loc. split.
  - apply Z.shiftr_nonneg. lia.
  - pose proof (Zdigits2_shiftr m (Z.pos p) Hm ltac:(lia)). lia.
Qed.

Lemma round_nearest_even_nonneg m l : 0 <= m -> 0 <= round_nearest_even m l.
Proof.
  intros Hm. unfold round_nearest_even.
  destruct l as [|[| |]]; try lia. destruct (Z.even m); lia.
Qed.

Lemma binary_round_aux_canonical s m e l :
  0 <= m -> F32.canonical (binary_round_aux F32.prec F32.emax s m e l).
Proof.
  intros Hm. unfold binary_round_aux.
  pose proof (shr_fexp_canonical m e l Hm) as [H1 _].
  destruct (shr_fexp F32.prec F32.emax m e l) as [mrs' e'] eqn:E1. cbn [fst] in H1.
  pose proof (round_nearest_even_nonneg (shr_m mrs') (loc_of_shr_record mrs') H1) as H2.
  pose proof (shr_fexp_canonical _ e' loc_Exact H2) as [_ H3].
  destruct (shr_fexp F32.prec F32.emax _ e' loc_Exact) as [mrs'' e''] eqn:E2.
  cbn [fst] in H3.
  destruct (shr_m mrs'') as [|p|p]; cbn [F32.canonical]; auto.
  destruct (e'' <=? F32.emax - F32.prec); cbn [F32.canonical]; auto.
Qed.

Lemma mul_canonical x y : F32.canonical (F32.mul x y).
Proof.
  unfold F32.mul, SFmul.
  destruct x as [sx|sx| |sx mx ex], y as [sy|sy| |sy my ey]; cbn [F32.canonical]; auto.
  apply binary_round_aux_canonical. lia.
Qed.

(** ** Rounding to an integer is exact *)

Lemma pos_lt_pow2_digits m : Z.pos (digits2_pos m) <= 24 -> Z.pos m < 2 ^ 24.
Proof.
  intros Hd. pose proof (digits2_pos_bounds m) as [_ Hhi].
  assert (2 ^ Z.pos (digits2_pos m) <= 2 ^ 24) by (apply Z.pow_le_mono_r; lia).
  lia.
Qed.

Lemma nearest_even_mag_bound m e :
  Z.pos (digits2_pos m) <= 24 -> e < 0 -> 0 <= F32.nearest_even_mag m e <= 2 ^ 23.
Proof.
  intros Hd He. pose proof (pos_lt_pow2_digits m Hd) as Hm.
  unfold F32.nearest_even_mag.
  replace (0 <=? e) with false by (symmetry; apply Z.leb_gt; lia).
  assert (Hp : 2 <= 2 ^ (- e)).
  { change 2 with (2 ^ 1) at 1. apply Z.pow_le_mono_r; lia. }
  assert (Hq : 0 <= Z.pos m / 2 ^ (- e) < 2 ^ 23).
  { split; [apply Z.div_pos; lia|].
    apply Z.div_lt_upper_bound; [lia|].
    change (2 ^ 24) with (2 * 2 ^ 23) in Hm. nia. }
  cbv zeta. destruct (2 * (Z.pos m mod 2 ^ (- e)) ?= 2 ^ (- e)); try lia.
  destruct (Z.even _); lia.
Qed.

(** [F32.nearest_even_mag] is a nearest integer: twice its distance to
    [m * 2^e], in units of [2^e], is at most one. *)
Lemma nearest_even_mag_nearest m e :
  e < 0 ->
  2 * Z.abs (F32.nearest_even_mag m e * 2 ^ (- e) - Z.pos m) <= 2 ^ (- e).
Proof.
  intros He. unfold F32.nearest_even_mag.
  replace (0 <=? e) with false by (symmetry; apply Z.leb_gt; lia).
  assert (Hp : 0 < 2 ^ (- e)) by (apply Z.pow_pos_nonneg; lia).
  pose proof (Z.div_mod (Z.pos m) (2 ^ (- e)) ltac:(lia)) as Hdm.
  pose proof (Z.mod_pos_bound (Z.pos m) (2 ^ (- e)) Hp) as Hr.
  cbv zeta.
  set (d := 2 ^ (- e)) in *. set (q := Z.pos m / d) in *. set (r := Z.pos m mod d) in *.
  clearbody r. clearbody q. clearbody d.
  assert (Hq : q * d - Z.pos m = - r) by (rewrite Hdm; ring).
  assert (Hq1 : (q + 1) * d - Z.pos m = d - r) by (rewrite Hdm; ring).
  destruct (2 * r ?= d) eqn:C.
  - apply Z.compare_eq in C. destruct (Z.even q); rewrite ?Hq, ?Hq1; lia.
  - rewrite Z.compare_lt_iff in C. rewrite Hq. lia.
  - rewrite Z.compare_gt_iff in C. rewrite Hq1. lia.
Qed.

Lemma floor_mag_shiftl p :
  Z.pos (digits2_pos p) <= 24 ->
  F32.floor_mag (Pos.shiftl p (Z.to_N (24 - Z.pos (digits2_pos p))))
    (0 + Z.pos (digits2_pos p) - 24) = Z.pos p.
Proof.
  intros Hd. apply floor_mag_represents; try lia.
  rewrite Zpos_Pos_shiftl by lia. f_equal. f_equal. lia.
Qed.

Lemma in_range_spec z :
  Int32.in_range z = ((- 2 ^ (32 - 1) <=? z) && (z <? 2 ^ (32 - 1))).
Proof.
  unfold Int32.in_range, Int32.min_int, Int32.max_int. f_equal.
  destruct (Z.leb_spec z (2 ^ 31 - 1)), (Z.ltb_spec z (2 ^ (32 - 1))); try reflexivity;
    change (2 ^ (32 - 1)) with (2 ^ 31) in *; lia.
Qed.

(** The code's [to_int32 (round x)] is the integer of the specification's
    rounding, cast to int32. *)
Lemma to_int32_round_spec x :
  F32.canonical x -> F32.to_int32 (F32.round x) = cast_int32 (spec_round x).
Proof.
  destruct x as [s|s| |s m e]; try reflexivity.
  cbn [F32.canonical spec_round cast_int32]. intros Hd.
  unfold F32.round. destruct (0 <=? e) eqn:E.
  - unfold F32.to_int32, F32.to_int, F32.floor_mag, F32.nearest_even_mag.
    rewrite E, in_range_spec. reflexivity.
  - apply Z.leb_gt in E.
    pose proof (nearest_even_mag_bound m e Hd E) as Hn.
    destruct (F32.nearest_even_mag m e) as [|p|p] eqn:En; try lia.
    + destruct s; reflexivity.
    + assert (Hdp : Z.pos (digits2_pos p) <= 24).
      { apply digits2_pos_le; lia. }
      assert (Hr : Int32.in_range (F32.signed s (Z.pos p)) = true).
      { unfold Int32.in_range, Int32.min_int, Int32.max_int.
        rewrite andb_true_iff, !Z.leb_le. destruct s; cbn [F32.signed]; lia. }
      rewrite Hr.
      assert (Hbn : binary_normalize F32.prec F32.emax (F32.signed s (Z.pos p)) 0 s
                    = binary_round F32.prec F32.emax s p 0).
      { destruct s; reflexivity. }
      rewrite Hbn, binary_round_exact by lia.
      unfold F32.to_int32, F32.to_int.
      rewrite floor_mag_shiftl by assumption.
      rewrite <- in_range_spec, Hr. reflexivity.
Qed.

End F32Facts.

(** * The random draw *)

Lemma Uint32ToFloat_finite x : F32.is_finite (Uint32ToFloat x) = true.
Proof.
  unfold Uint32ToFloat.
  assert (Hman : 0 <= Z.land x 8388607 < 2 ^ 23).
  { change 8388607 with (Z.ones 23). rewrite Z.land_ones by lia.
    apply Z.mod_pos_bound. lia. }
  set (man := Z.land x 8388607) in *.
  assert (Hlor : 2 ^ 23 <= Z.lor 8388608 man < 2 ^ 24).
  { assert (Hnn : 0 <= Z.lor 8388608 man) by (apply Z.lor_nonneg; lia).
    assert (Hlog : Z.log2 (Z.lor 8388608 man) = 23).
    { rewrite Z.log2_lor by lia. change (Z.log2 8388608) with 23.
      destruct (Z.eq_dec man 0) as [->|Hne]; [reflexivity|].
      assert (Z.log2 man < 23) by (apply Z.log2_lt_pow2; lia). lia. }
    pose proof (Z.log2_spec (Z.lor 8388608 man)) as Hspec.
    assert (Hpos : 0 < Z.lor 8388608 man).
    { destruct (Z.eq_dec (Z.lor 8388608 man) 0) as [E|E]; [|lia].
      rewrite E in Hlog. discriminate. }
    specialize (Hspec Hpos). rewrite Hlog in Hspec.
    change (Z.succ 23) with 24 in Hspec. exact Hspec. }
  destruct (Z.lor 8388608 man) as [|p|p] eqn:Ep; try lia.
  cbn [Z.to_pos].
  change (F32.sub (S754_finite false p (-23)) F32.one)
    with (binary_normalize F32.prec F32.emax (Z.pos p - 8388608) (-23) false).
  apply F32Facts.binary_normalize_finite; lia.
Qed.

Lemma random_uniform_unit_finite n g :
  Forall (fun u => F32.is_finite u = true) (fst (random_uniform_unit n g)).
Proof.
  revert g. induction n as [|n IH]; intros g; cbn [random_uniform_unit].
  - constructor.
  - unfold next_uint32. specialize (IH (mkGenerator (words g) (S (position g)))).
    destruct (random_uniform_unit n _) as [rest g2]. cbn [fst] in *.
    constructor; [apply Uint32ToFloat_finite | exact IH].
Qed.

Lemma random_uniform_1 minval maxval g :
  random_uniform 1 minval maxval g = ([draw minval maxval g], advance g).
Proof.
  unfold random_uniform, random_uniform_unit, draw, advance.
  destruct (next_uint32 g) as [x g1]. reflexivity.
Qed.

(** With equal bounds the draw is that bound. *)
Lemma draw_degenerate s m e g :
  draw (S754_finite s m e) (S754_finite s m e) g = S754_finite s m e.
Proof.
  unfold draw. rewrite F32Facts.sub_self.
  destruct (F32Facts.mul_zero_r (Uint32ToFloat (fst (next_uint32 g))) false
              (Uint32ToFloat_finite _)) as [s' ->].
  apply F32Facts.add_zero_l.
Qed.

Lemma transform_draw {A : Type} (zero : A) img ann output_shape minval maxval m g :
  scale_jittering_tensor_with_fixed_size_output zero img ann output_shape minval maxval m g
  = (scale_jittering_with_rand_var zero img ann output_shape [draw minval maxval g] m,
     advance g).
Proof.
  unfold scale_jittering_tensor_with_fixed_size_output, scale_jittering_with_rand_var,
    scaled_input_shape_of.
  rewrite random_uniform_1. reflexivity.
Qed.

(** * int32 facts *)

Module Int32Facts.

Lemma wrap_in_range z : Int32.in_range z = true -> Int32.wrap z = z.
Proof.
  unfold Int32.in_range, Int32.wrap, Int32.min_int, Int32.max_int.
  rewrite andb_true_iff, Z.leb_le, Z.leb_le. intros H.
  rewrite Z.mod_small by lia. lia.
Qed.

Lemma wrap_range z : Int32.in_range (Int32.wrap z) = true.
Proof.
  unfold Int32.in_range, Int32.wrap, Int32.min_int, Int32.max_int.
  pose proof (Z.mod_pos_bound (z + 2 ^ 31) (2 ^ 32) ltac:(lia)).
  rewrite andb_true_iff, Z.leb_le, Z.leb_le. lia.
Qed.

Lemma wrap_add_l a b : Int32.wrap (Int32.wrap a + b) = Int32.wrap (a + b).
Proof.
  unfold Int32.wrap. f_equal.
  replace ((a + 2 ^ 31) mod 2 ^ 32 - 2 ^ 31 + b + 2 ^ 31)
    with ((a + 2 ^ 31) mod 2 ^ 32 + b) by lia.
  rewrite Zplus_mod_idemp_l. f_equal. lia.
Qed.

Lemma shift_nonzero v :
  Int32.in_range v = true -> v <> -1 -> Int32.add v 1 <> 0.
Proof.
  unfold Int32.in_range, Int32.add, Int32.wrap, Int32.min_int, Int32.max_int.
  rewrite andb_true_iff, Z.leb_le, Z.leb_le. intros H Hv E.
  pose proof (Z.div_mod (v + 1 + 2 ^ 31) (2 ^ 32) ltac:(lia)).
  pose proof (Z.mod_pos_bound (v + 1 + 2 ^ 31) (2 ^ 32) ltac:(lia)).
  lia.
Qed.

(** Undoing the shift on a pixel that is not marked as padding. *)
Lemma unshift_shift m v :
  Int32.in_range v = true -> v <> -1 -> unshift m (Int32.add v 1) = v.
Proof.
  intros Hr Hv. unfold unshift, mask_out, is_pad.
  pose proof (shift_nonzero v Hr Hv) as Hnz.
  apply Z.eqb_neq in Hnz. rewrite Hnz.
  unfold Int32.mul. cbn [Z.mul]. change (Int32.wrap 0) with 0.
  unfold Int32.sub, Int32.add. rewrite Z.add_0_r.
  rewrite (wrap_in_range (Int32.wrap (v + 1))) by apply wrap_range.
  replace (Int32.wrap (v + 1) - 1) with (Int32.wrap (v + 1) + (-1)) by lia.
  rewrite wrap_add_l. replace (v + 1 + -1) with v by lia.
  apply wrap_in_range, Hr.
Qed.

(** A padded pixel receives the mask-out number. *)
Lemma unshift_zero m : Int32.in_range m = true -> unshift m 0 = m.
Proof.
  intros Hr. unfold unshift, mask_out, is_pad. cbn [Z.eqb].
  unfold Int32.mul, Int32.add, Int32.sub. rewrite Z.mul_1_l, Z.add_0_l.
  rewrite !(wrap_in_range (Int32.wrap (m + 1))) by apply wrap_range.
  replace (Int32.wrap (m + 1) - 1) with (Int32.wrap (m + 1) + (-1)) by lia.
  rewrite wrap_add_l. replace (m + 1 + -1) with m by lia.
  apply wrap_in_range, Hr.
Qed.

(** A pixel whose class id is -1 is taken for padding. *)
Lemma unshift_minus_one m : Int32.in_range m = true -> unshift m (Int32.add (-1) 1) = m.
Proof. intros Hr. change (Int32.add (-1) 1) with 0. now apply unshift_zero. Qed.

End Int32Facts.

(** * Pixels and values *)

Lemma values_tmap {A B : Type} (f : A -> B) (t : tensor3 A) :
  values (tmap f t) = map f (values t).
Proof. unfold values, tmap. now rewrite !concat_map. Qed.

Lemma In_values {A : Type} (v : A) (t : tensor3 A) :
  In v (values t) <-> exists row px, In row t /\ In px row /\ In v px.
Proof.
  unfold values. rewrite in_concat. split.
  - intros [px [Hpx Hv]]. apply in_concat in Hpx. destruct Hpx as [row [Hrow Hpx]].
    eauto.
  - intros [row [px [Hrow [Hpx Hv]]]]. exists px. split; auto.
    apply in_concat. eauto.
Qed.

Lemma tmap_ext_in {A B : Type} (f g : A -> B) (t : tensor3 A) :
  (forall v, In v (values t) -> f v = g v) -> tmap f t = tmap g t.
Proof.
  intros H. unfold tmap.
  apply map_ext_in. intros row Hrow.
  apply map_ext_in. intros px Hpx.
  apply map_ext_in. intros v Hv.
  apply H, In_values. eauto.
Qed.

Lemma tmap_id {A : Type} (t : tensor3 A) : tmap (fun v => v) t = t.
Proof.
  unfold tmap. rewrite <- (map_id t) at 2. apply map_ext. intros row.
  rewrite <- (map_id row) at 2. apply map_ext. intros px. apply map_id.
Qed.

Lemma nth_range n i d : 0 <= i < n -> nth (Z.to_nat i) (range n) d = i.
Proof.
  intros Hi. unfold range.
  rewrite (nth_indep _ d (Z.of_nat 0)) by (rewrite length_map, length_seq; lia).
  rewrite map_nth, seq_nth by lia. lia.
Qed.

Lemma nth_map_range {X : Type} (f : Z -> X) n i d :
  0 <= i < n -> nth (Z.to_nat i) (map f (range n)) d = f i.
Proof.
  intros Hi.
  rewrite (nth_indep _ d (f 0)) by (rewrite length_map, range_length; lia).
  rewrite map_nth, nth_range by assumption. reflexivity.
Qed.

Lemma pixel_at_resized {A : Type} (t : tensor3 A) h w sh sw i j :
  0 <= i < sh -> 0 <= j < sw ->
  pixel_at (resized t h w sh sw) i j
  = pixel_at t (nearest_index h (CalculateResizeScale h sh) i)
               (nearest_index w (CalculateResizeScale w sw) j).
Proof.
  intros Hi Hj. unfold pixel_at, resized, ResizeNearestNeighbor.
  rewrite (nth_map_range _ sh i) by assumption.
  rewrite (nth_map_range _ sw j) by assumption. reflexivity.
Qed.

Lemma nth_padded {X : Type} (blank d : X) l a b i :
  (i < a + length l + b)%nat ->
  nth i (repeat blank a ++ l ++ repeat blank b) d
  = if ((a <=? i) && (i <? a + length l))%nat then nth (i - a) l d else blank.
Proof.
  intros Hi. destruct (Nat.leb_spec a i) as [Ha|Ha]; cbn [andb].
  - rewrite app_nth2 by (rewrite repeat_length; lia). rewrite repeat_length.
    destruct (Nat.ltb_spec i (a + length l)) as [Hl|Hl].
    + apply app_nth1. lia.
    + rewrite app_nth2 by lia. apply nth_repeat_lt. lia.
  - rewrite app_nth1 by (rewrite repeat_length; lia). apply nth_repeat_lt. lia.
Qed.

Lemma nth_sliced {X : Type} (d : X) l b n i :
  (i < n)%nat -> nth i (firstn n (skipn b l)) d = nth (b + i) l d.
Proof.
  intros Hi. rewrite nth_firstn, nth_skipn.
  destruct (Nat.ltb_spec i n); [reflexivity|lia].
Qed.

Lemma pixel_at_array_slice {A : Type} (t : tensor3 A) h w c bh bw sh sw i j :
  Shape t h w c -> 0 <= bh -> 0 <= bw -> sh + bh <= h ->
  0 <= i < sh -> 0 <= j < sw ->
  pixel_at (array_slice t bh bw sh sw) i j = pixel_at t (bh + i) (bw + j).
Proof.
  intros [Hh _] Hbh Hbw Hfh Hi Hj. unfold height in Hh.
  unfold pixel_at, array_slice.
  set (f := fun row : list (list A) => firstn (Z.to_nat sw) (skipn (Z.to_nat bw) row)).
  rewrite (nth_indep _ [] (f [])) by (rewrite length_map, length_firstn, length_skipn; lia).
  rewrite map_nth. unfold f.
  rewrite !nth_sliced by lia.
  f_equal; [lia|]. f_equal. lia.
Qed.

Lemma pixel_at_array_pad {A : Type} (zero : A) (t : tensor3 A) h w c
    top bottom left right i j :
  Shape t h w c -> 0 < h -> 0 < w ->
  0 <= top -> 0 <= bottom -> 0 <= left -> 0 <= right ->
  0 <= i < top + h + bottom -> 0 <= j < left + w + right ->
  pixel_at (array_pad zero t top bottom left right) i j
  = if (top <=? i) && (i <? top + h) && (left <=? j) && (j <? left + w)
    then pixel_at t (i - top) (j - left)
    else repeat zero (Z.to_nat c).
Proof.
  intros Ht Hh Hw Htop Hbot Hleft Hright Hi Hj.
  destruct (Shape_dims _ _ _ _ Ht Hh Hw) as (Eh & Ew & Ec).
  destruct Ht as [_ Hr]. unfold height in Eh.
  unfold pixel_at, array_pad. rewrite Ew, Ec.
  set (blank := repeat zero (Z.to_nat c)).
  set (blank_row := repeat blank (Z.to_nat (left + w + right))).
  set (pad_row := fun row : list (list A) =>
                    repeat blank (Z.to_nat left) ++ row ++ repeat blank (Z.to_nat right)).
  rewrite nth_padded by (rewrite length_map; lia).
  rewrite length_map.
  assert (Hblank : nth (Z.to_nat j) blank_row [] = blank).
  { apply nth_repeat_lt. lia. }
  destruct (Z.leb_spec top i) as [H1|H1], (Z.ltb_spec i (top + h)) as [H2|H2];
    cbn [andb];
    try (replace ((Z.to_nat top <=? Z.to_nat i)%nat && (Z.to_nat i <? Z.to_nat top + length t)%nat)
           with false by (symmetry; apply andb_false_iff;
                          rewrite Nat.leb_gt, Nat.ltb_ge; lia);
         exact Hblank).
  replace ((Z.to_nat top <=? Z.to_nat i)%nat && (Z.to_nat i <? Z.to_nat top + length t)%nat)
    with true by (symmetry; apply andb_true_iff; rewrite Nat.leb_le, Nat.ltb_lt; lia).
  rewrite (nth_indep _ [] (pad_row [])) by (rewrite length_map; lia).
  rewrite map_nth. unfold pad_row.
  assert (Hin : In (nth (Z.to_nat i - Z.to_nat top) t []) t) by (apply nth_In; lia).
  rewrite Forall_forall in Hr. destruct (Hr _ Hin) as [Hlen _].
  rewrite nth_padded by lia.
  replace (Z.to_nat i - Z.to_nat top)%nat with (Z.to_nat (i - top)) in * by lia.
  destruct (Z.leb_spec left j) as [H3|H3], (Z.ltb_spec j (left + w)) as [H4|H4];
    cbn [andb].
  - replace ((Z.to_nat left <=? Z.to_nat j)%nat &&
             (Z.to_nat j <? Z.to_nat left + length (nth (Z.to_nat (i - top)) t []))%nat)
      with true by (symmetry; apply andb_true_iff; rewrite Nat.leb_le, Nat.ltb_lt; lia).
    f_equal. lia.
  - replace ((Z.to_nat left <=? Z.to_nat j)%nat &&
             (Z.to_nat j <? Z.to_nat left + length (nth (Z.to_nat (i - top)) t []))%nat)
      with false by (symmetry; apply andb_false_iff; rewrite Nat.leb_gt, Nat.ltb_ge; lia).
    reflexivity.
  - replace ((Z.to_nat left <=? Z.to_nat j)%nat &&
             (Z.to_nat j <? Z.to_nat left + length (nth (Z.to_nat (i - top)) t []))%nat)
      with false by (symmetry; apply andb_false_iff; rewrite Nat.leb_gt, Nat.ltb_ge; lia).
    reflexivity.
  - lia.
Qed.

Lemma pixel_at_crop_or_pad {A : Type} (zero : A) (t : tensor3 A) h w c th tw i j :
  Shape t h w c -> 0 < h -> 0 < w -> 0 < th -> 0 < tw ->
  0 <= i < th -> 0 <= j < tw ->
  pixel_at (crop_or_pad zero t th tw) i j
  = match source th h i, source tw w j with
    | Some y, Some x => pixel_at t y x
    | _, _ => repeat zero (Z.to_nat c)
    end.
Proof.
  intros Ht Hh Hw Hth Htw Hi Hj.
  destruct (Shape_dims _ _ _ _ Ht Hh Hw) as (Eh & Ew & Ec).
  pose proof (half_bounds (th - h)) as [Hh1 Hh2].
  pose proof (half_bounds (- (th - h))) as [Hh3 Hh4].
  pose proof (half_bounds (tw - w)) as [Hw1 Hw2].
  pose proof (half_bounds (- (tw - w))) as [Hw3 Hw4].
  unfold crop_or_pad, source. rewrite Eh, Ew.
  set (ct := Z.max (- (th - h) / 2) 0) in *.
  set (cl := Z.max (- (tw - w) / 2) 0) in *.
  set (pt := Z.max ((th - h) / 2) 0) in *.
  set (pl := Z.max ((tw - w) / 2) 0) in *.
  assert (Hs : Shape (array_slice t ct cl (Z.min th h) (Z.min tw w))
                 (Z.min th h) (Z.min tw w) c).
  { apply Shape_array_slice with (h := h) (w := w); auto; lia. }
  rewrite (pixel_at_array_pad zero _ _ _ _ _ _ _ _ i j Hs) by lia.
  destruct ((pt <=? i) && (i <? pt + Z.min th h)) eqn:E1; cbn [andb]; [|reflexivity].
  destruct ((pl <=? j) && (j <? pl + Z.min tw w)) eqn:E2; cbn [andb]; [|reflexivity].
  apply andb_true_iff in E1, E2. rewrite Z.leb_le, Z.ltb_lt in E1, E2.
  rewrite (pixel_at_array_slice t h w c) by (auto; lia).
  f_equal; lia.
Qed.

Lemma pixel_at_tmap {A B : Type} (f : A -> B) (t : tensor3 A) i j :
  pixel_at (tmap f t) i j = map f (pixel_at t i j).
Proof.
  unfold pixel_at, tmap.
  change (@nil (list B)) with (map (map f) []) at 1. rewrite map_nth.
  change (@nil B) with (map f []) at 1. rewrite map_nth. reflexivity.
Qed.

Lemma pixel_in_values {A : Type} (t : tensor3 A) h w c i j v :
  Shape t h w c -> (Z.to_nat i < Z.to_nat h)%nat -> (Z.to_nat j < Z.to_nat w)%nat ->
  In v (pixel_at t i j) -> In v (values t).
Proof.
  intros [Hh Hr] Hi Hj Hv. unfold height in Hh. apply In_values.
  assert (Hrow : In (nth (Z.to_nat i) t []) t) by (apply nth_In; lia).
  rewrite Forall_forall in Hr. destruct (Hr _ Hrow) as [Hlen _].
  exists (nth (Z.to_nat i) t []), (pixel_at t i j). repeat split; auto.
  apply nth_In. lia.
Qed.

Lemma source_range target size i y :
  0 < size -> 0 < target -> 0 <= i < target ->
  source target size i = Some y -> 0 <= y < size.
Proof.
  intros Hs Ht Hi. unfold source.
  pose proof (half_bounds (target - size)) as [H1 H2].
  pose proof (half_bounds (- (target - size))) as [H3 H4].
  destruct ((Z.max ((target - size) / 2) 0 <=? i) &&
            (i <? Z.max ((target - size) / 2) 0 + Z.min target size)) eqn:E;
    [|discriminate].
  apply andb_true_iff in E. rewrite Z.leb_le, Z.ltb_lt in E.
  intros [= <-]. lia.
Qed.

Lemma values_ResizeNearestNeighbor {A : Type} (t : tensor3 A) h w hs ws oh ow v :
  In v (values (ResizeNearestNeighbor t h w hs ws oh ow)) -> In v (values t).
Proof.
  rewrite !In_values. intros (row & px & Hrow & Hpx & Hv).
  unfold ResizeNearestNeighbor in Hrow.
  apply in_map_iff in Hrow. destruct Hrow as (y & <- & _).
  apply in_map_iff in Hpx. destruct Hpx as (x & <- & _).
  set (trow := nth (Z.to_nat (nearest_index h hs y)) t []) in *.
  destruct (nth_in_or_default (Z.to_nat (nearest_index w ws x)) trow []) as [Hin|Hd];
    [|rewrite Hd in Hv; destruct Hv].
  destruct (nth_in_or_default (Z.to_nat (nearest_index h hs y)) t []) as [Hin'|Hd'].
  - eauto.
  - unfold trow in Hin. rewrite Hd' in Hin. destruct Hin.
Qed.

Lemma values_array_slice {A : Type} (t : tensor3 A) bh bw sh sw v :
  In v (values (array_slice t bh bw sh sw)) -> In v (values t).
Proof.
  rewrite !In_values. intros (row & px & Hrow & Hpx & Hv).
  unfold array_slice in Hrow.
  apply in_map_iff in Hrow. destruct Hrow as (row' & <- & Hrow').
  apply In_firstn, In_skipn in Hrow'. apply In_firstn, In_skipn in Hpx. eauto.
Qed.

Lemma values_array_pad {A : Type} (zero : A) (t : tensor3 A) top bottom left right v :
  In v (values (array_pad zero t top bottom left right)) -> v = zero \/ In v (values t).
Proof.
  rewrite !In_values. intros (row & px & Hrow & Hpx & Hv).
  unfold array_pad in Hrow.
  assert (Hblank : forall n k, In px (repeat (repeat zero k) n) -> v = zero).
  { intros n k Hin. apply repeat_spec in Hin. subst px.
    now apply repeat_spec in Hv. }
  assert (Hblank_row : forall n k k', In row (repeat (repeat (repeat zero k) k') n) ->
                                      v = zero).
  { intros n k k' Hin. apply repeat_spec in Hin. subst row. eauto. }
  rewrite !in_app_iff in Hrow. destruct Hrow as [Hrow|[Hrow|Hrow]]; eauto.
  apply in_map_iff in Hrow. destruct Hrow as (row' & <- & Hrow').
  rewrite !in_app_iff in Hpx. destruct Hpx as [Hpx|[Hpx|Hpx]]; eauto 6.
Qed.

Lemma values_crop_or_pad {A : Type} (zero : A) (t : tensor3 A) th tw v :
  In v (values (crop_or_pad zero t th tw)) -> v = zero \/ In v (values t).
Proof.
  unfold crop_or_pad. intros H. apply values_array_pad in H.
  destruct H as [H|H]; [now left|right]. eapply values_array_slice, H.
Qed.

Lemma class_ids_ok_spec ann v :
  class_ids_ok ann = true -> In v (values ann) ->
  Int32.in_range v = true /\ v <> -1.
Proof.
  unfold class_ids_ok. rewrite forallb_forall. intros H Hv.
  specialize (H v Hv). apply andb_true_iff in H. rewrite !Z.leb_le in H.
  unfold Int32.in_range, Int32.min_int, Int32.max_int in *.
  rewrite andb_true_iff, !Z.leb_le. lia.
Qed.

Lemma wrap_mul_r a b : Int32.wrap (a * Int32.wrap b) = Int32.wrap (a * b).
Proof.
  unfold Int32.wrap. f_equal.
  rewrite (Z.mod_eq (b + 2 ^ 31) (2 ^ 32)) by lia.
  replace (a * (b + 2 ^ 31 - 2 ^ 32 * ((b + 2 ^ 31) / 2 ^ 32) - 2 ^ 31) + 2 ^ 31)
    with (a * b + 2 ^ 31 + (- (a * ((b + 2 ^ 31) / 2 ^ 32))) * 2 ^ 32) by ring.
  apply Z_mod_plus_full.
Qed.

Lemma unshift_formula m v :
  unshift m v = Int32.sub (Int32.add v (Int32.mul (is_pad v) (m + 1))) 1.
Proof.
  unfold unshift, mask_out, is_pad, Int32.mul. now rewrite wrap_mul_r.
Qed.

(** * The transform at scale one *)

Lemma scaled_axis_identity a h w :
  F32.small a -> F32.small h -> F32.small w -> 0 < h -> 0 < w ->
  scaled_axis a h w h w F32.one = a.
Proof.
  intros Ha Hh Hw Hhp Hwp. unfold scaled_axis.
  rewrite !F32Facts.div_self_of_Z by assumption.
  change (F32.mul (F32.min F32.one F32.one) F32.one) with F32.one.
  rewrite F32Facts.mul_one_of_Z by assumption.
  now apply F32Facts.to_int32_round_of_Z.
Qed.

Lemma nearest_index_identity n y :
  F32.small n -> 0 <= y < n ->
  nearest_index n (CalculateResizeScale n n) y = y.
Proof.
  intros Hn Hy. unfold nearest_index, CalculateResizeScale.
  assert (Hsy : F32.small y) by (unfold F32.small in *; lia).
  rewrite F32Facts.div_self_of_Z by (auto; lia).
  rewrite F32Facts.mul_one_of_Z, F32Facts.to_int64_floor_of_Z by assumption.
  lia.
Qed.

Lemma map_range_ext {X : Type} (f f' : Z -> X) n :
  (forall y, 0 <= y < n -> f y = f' y) -> map f (range n) = map f' (range n).
Proof.
  intros H. apply map_ext_in. intros y Hy. apply H.
  unfold range in Hy. apply in_map_iff in Hy. destruct Hy as (k & <- & Hk).
  apply in_seq in Hk. lia.
Qed.

Lemma map_nth_range {X : Type} (l : list X) d :
  map (fun y => nth (Z.to_nat y) l d) (range (Z.of_nat (length l))) = l.
Proof.
  unfold range. rewrite map_map, Nat2Z.id.
  apply nth_ext with (d := d) (d' := d).
  - now rewrite length_map, length_seq.
  - intros k Hk. rewrite length_map, length_seq in Hk.
    rewrite (nth_indep _ d (nth (Z.to_nat (Z.of_nat 0)) l d))
      by (rewrite length_map, length_seq; lia).
    rewrite (map_nth (fun x => nth (Z.to_nat (Z.of_nat x)) l d)).
    rewrite seq_nth by lia. now rewrite Nat2Z.id.
Qed.

Lemma resized_identity {A : Type} (t : tensor3 A) h w c :
  Shape t h w c -> F32.small h -> F32.small w -> 0 < h -> 0 < w ->
  resized t h w h w = t.
Proof.
  intros [Hh Hr] Hsh Hsw Hhp Hwp. unfold height in Hh.
  unfold resized, ResizeNearestNeighbor.
  etransitivity; [|apply (map_nth_range t [])]. rewrite Hh.
  apply map_range_ext. intros y Hy.
  rewrite nearest_index_identity by assumption.
  assert (Hin : In (nth (Z.to_nat y) t []) t) by (apply nth_In; lia).
  rewrite Forall_forall in Hr. destruct (Hr _ Hin) as [Hlen _].
  etransitivity; [|apply (map_nth_range (nth (Z.to_nat y) t []) [])]. rewrite Hlen.
  apply map_range_ext. intros x Hx.
  now rewrite nearest_index_identity.
Qed.

Lemma crop_or_pad_identity {A : Type} (zero : A) (t : tensor3 A) h w c :
  Shape t h w c -> 0 < h -> 0 < w -> crop_or_pad zero t h w = t.
Proof.
  intros Ht Hh Hw.
  destruct (Shape_dims _ _ _ _ Ht Hh Hw) as (Eh & Ew & Ec).
  destruct Ht as [_ Hr].
  unfold crop_or_pad. rewrite Eh, Ew, !Z.sub_diag.
  change (Z.max (- 0 / 2) 0) with 0. change (Z.max (0 / 2) 0) with 0.
  rewrite !Z.min_id, !Z.sub_0_r, !Z.sub_diag.
  assert (Hslice : array_slice t 0 0 h w = t).
  { unfold array_slice, height in *. cbn [Z.to_nat skipn].
    rewrite <- Eh, Nat2Z.id, firstn_all.
    rewrite <- (map_id t) at 2. apply map_ext_in. intros row Hrow.
    rewrite Forall_forall in Hr. destruct (Hr row Hrow) as [Hlen _].
    rewrite <- Hlen, Nat2Z.id. apply firstn_all. }
  rewrite Hslice. unfold array_pad. cbn [Z.to_nat repeat app].
  rewrite app_nil_r. rewrite <- (map_id t) at 2. apply map_ext. intros row.
  apply app_nil_r.
Qed.

(** * The pipeline of the specification and the result of the transform *)

Lemma scaled_axis_spec a h w oh ow r :
  scaled_axis a h w oh ow r
  = cast_int32 (spec_round (F32.mul (F32.of_Z a) (spec_finalScale (h, w) (oh, ow) r))).
Proof.
  unfold scaled_axis. rewrite F32Facts.to_int32_round_spec by apply F32Facts.mul_canonical.
  reflexivity.
Qed.

Lemma spec_scaledShape_axes h w oh ow r :
  cast_int32 (fst (spec_scaledShape (h, w) (oh, ow) r)) = scaled_axis h h w oh ow r /\
  cast_int32 (snd (spec_scaledShape (h, w) (oh, ow) r)) = scaled_axis w h w oh ow r.
Proof. now rewrite !scaled_axis_spec. Qed.

Lemma ResizeNearestNeighbor_tmap {A B : Type} (f : A -> B) (t : tensor3 A)
    h w hs ws oh ow :
  ResizeNearestNeighbor (tmap f t) h w hs ws oh ow
  = tmap f (ResizeNearestNeighbor t h w hs ws oh ow).
Proof.
  unfold ResizeNearestNeighbor, tmap. rewrite map_map.
  apply map_ext. intros y. rewrite map_map. apply map_ext. intros x.
  change (@nil (list B)) with (map (map f) []) at 1. rewrite map_nth.
  change (@nil B) with (map f []) at 1. now rewrite map_nth.
Qed.


Lemma tmap_dims {A B : Type} (f : A -> B) (t : tensor3 A) :
  height (tmap f t) = height t /\ width (tmap f t) = width t /\
  depth (tmap f t) = depth t.
Proof.
  unfold height, width, depth, tmap. rewrite length_map.
  destruct t as [|row t]; cbn [map hd]; [auto|]. rewrite length_map.
  destruct row as [|px row]; cbn [map hd]; [auto|]. now rewrite length_map.
Qed.

Lemma resizeNearest_code {A : Type} (t : tensor3 A) size :
  resizeNearest t size
  = bind (resize_nearest_neighbor (expand_dims t) size) squeeze.
Proof. reflexivity. Qed.

Lemma resize_nearest_neighbor_single {A : Type} (t : tensor3 A) size :
  (exists t', resize_nearest_neighbor [t] size = Ok [t']) \/
  (exists e, resize_nearest_neighbor [t] size = Raise e).
Proof.
  unfold resize_nearest_neighbor.
  destruct size as [|oh [|ow [|? ?]]]; eauto.
  cbn [hd map].
  destruct (assert _ _); cbn [bind]; eauto.
  destruct (assert _ _); cbn [bind]; eauto.
  destruct (assert _ _); cbn [bind]; eauto.
Qed.

Lemma resize_nearest_neighbor_tmap {A B : Type} (f : A -> B) (t : tensor3 A) size :
  resize_nearest_neighbor [tmap f t] size
  = bind (resize_nearest_neighbor [t] size) (fun b => Ok (map (tmap f) b)).
Proof.
  unfold resize_nearest_neighbor.
  destruct size as [|oh [|ow [|? ?]]]; try reflexivity.
  cbn [hd map].
  destruct (tmap_dims f t) as (-> & -> & ->).
  destruct (assert _ _); cbn [bind]; [|reflexivity].
  destruct (assert _ _); cbn [bind]; [|reflexivity].
  destruct (assert _ _); cbn [bind]; [|reflexivity].
  now rewrite ResizeNearestNeighbor_tmap.
Qed.

Lemma spec_transform_with_rand_var {A : Type} (zero : A) (img : tensor3 A)
    (ann : tensor3 Z) (oh ow : Z) (r : F32.t) (m : Z) :
  spec_transform zero img ann (oh, ow) r m
  = scale_jittering_with_rand_var zero img ann [oh; ow] [r] m.
Proof.
  unfold spec_transform, scale_jittering_with_rand_var, centerCropOrPad.
  rewrite !resizeNearest_code. unfold expand_dims.
  cbn [shape slice hd skipn firstn Nat.sub map fst snd nth].
  destruct (spec_scaledShape_axes (height img) (width img) oh ow r) as [-> ->].
  rewrite scaled_input_shape_of_axes.
  set (size := [scaled_axis (height img) (height img) (width img) oh ow r;
                scaled_axis (width img) (height img) (width img) oh ow r]).
  rewrite resize_nearest_neighbor_tmap.
  destruct (resize_nearest_neighbor_single img size) as [[ti ->]|[e ->]];
    [|reflexivity].
  destruct (resize_nearest_neighbor_single (tmap Int32.wrap ann) size)
    as [[ta ->]|[e ->]]; [|reflexivity].
  cbn [bind squeeze map].
  destruct (resize_image_with_crop_or_pad zero ti oh ow) as [ci|e]; [|reflexivity].
  destruct (resize_image_with_crop_or_pad 0 _ oh ow) as [ca|e]; [|reflexivity].
  cbn [bind]. rewrite tmap2_tmap_r, tmap_tmap. do 2 f_equal.
  apply tmap_ext_in. intros v _. symmetry. apply unshift_formula.
Qed.

Lemma resized_shapes {A : Type} (img : tensor3 A) (ann : tensor3 Z) h w c sh sw :
  Shape img h w c -> Shape ann h w 1 -> 0 < h -> 0 < w -> 0 < sh -> 0 < sw ->
  Shape (resized img h w sh sw) sh sw c /\
  Shape (tmap (fun v => Int32.add v 1) (resized (tmap Int32.wrap ann) h w sh sw)) sh sw 1.
Proof.
  intros Hi Ha Hh Hw Hsh Hsw. split.
  - apply Shape_ResizeNearestNeighbor; auto; lia.
  - apply Shape_tmap, Shape_ResizeNearestNeighbor; auto; try lia.
    now apply Shape_tmap.
Qed.

Lemma transform_inversion {A : Type} (zero : A) (img : tensor3 A) (ann : tensor3 Z)
    (h w c oh ow : Z) (minval maxval : F32.t) (m : Z) (g : generator) out_img out_ann :
  Shape img h w c -> Shape ann h w 1 ->
  0 < h -> 0 < w -> 0 < c -> 0 < oh -> 0 < ow ->
  fst (scale_jittering_tensor_with_fixed_size_output zero img ann [oh; ow]
         minval maxval m g) = Ok (out_img, out_ann) ->
  let sh := scaled_axis h h w oh ow (draw minval maxval g) in
  let sw := scaled_axis w h w oh ow (draw minval maxval g) in
  0 < sh /\ 0 < sw /\
  out_img = crop_or_pad zero (resized img h w sh sw) oh ow /\
  out_ann = tmap (unshift m)
              (crop_or_pad 0
                 (tmap (fun v => Int32.add v 1) (resized (tmap Int32.wrap ann) h w sh sw))
                 oh ow).
Proof.
  intros Hi Ha Hh Hw Hc Hoh How Hrun sh sw.
  rewrite transform_draw in Hrun. cbn [fst] in Hrun.
  destruct (Z_lt_le_dec 0 sh) as [Hsh|Hsh];
    [destruct (Z_lt_le_dec 0 sw) as [Hsw|Hsw]|].
  - rewrite (transform_returns zero img ann h w c oh ow _ m) in Hrun by assumption.
    injection Hrun as <- <-. auto.
  - rewrite (transform_raises zero img ann h w c oh ow _ m) in Hrun by auto.
    discriminate.
  - rewrite (transform_raises zero img ann h w c oh ow _ m) in Hrun by auto.
    discriminate.
Qed.

Lemma Shape_repeat {A : Type} (x : A) n :
  0 <= n -> Shape (repeat [[x]] (Z.to_nat n)) n 1 1.
Proof.
  intros Hn. unfold Shape, height. rewrite repeat_length. split; [lia|].
  rewrite Forall_forall. intros row Hrow. apply repeat_spec in Hrow. subst row.
  split; [reflexivity|]. repeat constructor.
Qed.

(** * The fit scale is the smaller of the two scales *)

(** The floats that occur as shapes and as fit scales are normal: their
    mantissa has exactly 24 bits. *)

Lemma Zdigits2_bounds m : 0 < m -> 2 ^ (Zdigits2 m - 1) <= m < 2 ^ Zdigits2 m.
Proof.
  destruct m as [|p|p]; try lia. intros _. cbn [Zdigits2].
  apply F32Facts.digits2_pos_bounds.
Qed.

Lemma Zdigits2_unique m d : 0 < d -> 2 ^ (d - 1) <= m < 2 ^ d -> Zdigits2 m = d.
Proof.
  intros Hd [Hlo Hhi].
  assert (Hp : 0 < 2 ^ (d - 1)) by (apply Z.pow_pos_nonneg; lia).
  rewrite F32Facts.Zdigits2_log2 by lia.
  rewrite (Z.log2_unique m (d - 1)); [lia|lia|].
  replace (Z.succ (d - 1)) with d by lia. lia.
Qed.

Lemma Zdigits2_shiftr_eq m n :
  0 < m -> 0 <= n < Zdigits2 m -> Zdigits2 (Z.shiftr m n) = Zdigits2 m - n.
Proof.
  intros Hm Hn. pose proof (Zdigits2_bounds m Hm) as [Hlo Hhi].
  assert (Hp : 0 < 2 ^ n) by (apply Z.pow_pos_nonneg; lia).
  apply Zdigits2_unique; [lia|].
  rewrite Z.shiftr_div_pow2 by lia. split.
  - apply Z.div_le_lower_bound; [assumption|].
    rewrite <- Z.pow_add_r by lia.
    replace (n + (Zdigits2 m - n - 1)) with (Zdigits2 m - 1) by lia. exact Hlo.
  - apply Z.div_lt_upper_bound; [assumption|].
    rewrite <- Z.pow_add_r by lia.
    replace (n + (Zdigits2 m - n)) with (Zdigits2 m) by lia. exact Hhi.
Qed.

Lemma shr_fexp_normal m e l :
  0 < m -> 24 <= Zdigits2 m -> -149 <= Zdigits2 m + e - 24 ->
  snd (shr_fexp F32.prec F32.emax m e l) = e + (Zdigits2 m - 24) /\
  0 < shr_m (fst (shr_fexp F32.prec F32.emax m e l)) /\
  Zdigits2 (shr_m (fst (shr_fexp F32.prec F32.emax m e l))) = 24.
Proof.
  intros Hm Hd He. unfold shr_fexp, shr.
  assert (Hn : fexp F32.prec F32.emax (Zdigits2 m + e) - e = Zdigits2 m - 24).
  { unfold fexp, emin, F32.prec, F32.emax. lia. }
  rewrite Hn.
  destruct (Zdigits2 m - 24) as [|p|p] eqn:En; try lia; cbn [fst snd].
  - rewrite F32Facts.shr_m_shr_record_of_loc. lia.
  - rewrite F32Facts.iter_pos_iter, F32Facts.shr_m_iter, F32Facts.shr_m_shr_record_of_loc
      by (rewrite F32Facts.shr_m_shr_record_of_loc; lia).
    pose proof (Zdigits2_shiftr_eq m (Z.pos p) Hm ltac:(lia)) as Hs.
    assert (Hz : 0 <= Z.shiftr m (Z.pos p)) by (apply Z.shiftr_nonneg; lia).
    assert (Hnz : Z.shiftr m (Z.pos p) <> 0).
    { intros E. rewrite E in Hs. cbn [Zdigits2] in Hs. lia. }
    lia.
Qed.

Lemma round_nearest_even_bounds m l : m <= round_nearest_even m l <= m + 1.
Proof.
  unfold round_nearest_even. destruct l as [|[| |]]; try lia.
  destruct (Z.even m); lia.
Qed.

Lemma binary_round_aux_normal s m e l :
  0 < m -> 24 <= Zdigits2 m -> -149 <= Zdigits2 m + e - 24 -> Zdigits2 m + e <= 127 ->
  exists m' e',
    binary_round_aux F32.prec F32.emax s m e l = S754_finite s m' e' /\
    Z.pos (digits2_pos m') = 24 /\
    Zdigits2 m + e - 24 <= e' <= Zdigits2 m + e - 23.
Proof.
  intros Hm Hd Hlo Hhi. unfold binary_round_aux.
  destruct (shr_fexp_normal m e l Hm Hd Hlo) as (E1 & P1 & D1).
  destruct (shr_fexp F32.prec F32.emax m e l) as [mrs' e1]. cbn [fst snd] in E1, P1, D1.
  pose proof (round_nearest_even_bounds (shr_m mrs') (loc_of_shr_record mrs')) as Hr.
  set (r1 := round_nearest_even (shr_m mrs') (loc_of_shr_record mrs')) in *.
  pose proof (Zdigits2_bounds (shr_m mrs') P1) as Hb. rewrite D1 in Hb.
  change (2 ^ (24 - 1)) with 8388608 in Hb. change (2 ^ 24) with 16777216 in Hb.
  assert (Hd1 : Zdigits2 r1 = 24 \/ Zdigits2 r1 = 25).
  { destruct (Z.eq_dec r1 16777216) as [->|Hne]; [right; reflexivity|left].
    apply Zdigits2_unique; [lia|].
    change (2 ^ (24 - 1)) with 8388608. change (2 ^ 24) with 16777216. lia. }
  destruct (shr_fexp_normal r1 e1 loc_Exact ltac:(lia) ltac:(lia) ltac:(lia))
    as (E2 & P2 & D2).
  destruct (shr_fexp F32.prec F32.emax r1 e1 loc_Exact) as [mrs'' e2].
  cbn [fst snd] in E2, P2, D2.
  destruct (shr_m mrs'') as [|m'|m'] eqn:Em; try lia.
  replace (e2 <=? F32.emax - F32.prec) with true
    by (symmetry; apply Z.leb_le; unfold F32.emax, F32.prec; lia).
  exists m', e2. cbn [Zdigits2] in D2. split; [reflexivity|]. split; lia.
Qed.

Lemma of_Z_normal z :
  0 < z < 2 ^ 31 ->
  exists m e, F32.of_Z z = S754_finite false m e /\
              Z.pos (digits2_pos m) = 24 /\ -23 <= e <= 8.
Proof.
  intros Hz. destruct (Z_lt_le_dec z (2 ^ 24)) as [Hs|Hl].
  - destruct (F32Facts.of_Z_represents z ltac:(lia)) as [m e Hm He Hv].
    exists m, e. repeat split; lia.
  - destruct z as [|p|p]; try lia.
    unfold F32.of_Z, binary_normalize, binary_round, shl_align.
    pose proof (F32Facts.digits2_pos_bounds p) as [Hlo Hhi].
    pose proof (F32Facts.digits2_pos_le p 31 ltac:(lia) ltac:(lia)) as Hle.
    assert (Hge : 24 < Z.pos (digits2_pos p)).
    { destruct (Z_lt_le_dec 24 (Z.pos (digits2_pos p))) as [|Hc]; [assumption|].
      pose proof (Z.pow_le_mono_r 2 (Z.pos (digits2_pos p)) 24 ltac:(lia) Hc). lia. }
    assert (Hf : fexp F32.prec F32.emax (Z.pos (digits2_pos p) + 0) - 0
                 = Z.pos (digits2_pos p) - 24).
    { unfold fexp, emin, F32.prec, F32.emax. lia. }
    rewrite Hf.
    destruct (Z.pos (digits2_pos p) - 24) as [|k|k] eqn:Ek; try lia.
    destruct (binary_round_aux_normal false (Z.pos p) 0 loc_Exact)
      as (m & e & E & Hm & He); cbn [Zdigits2]; try lia.
    exists m, e. cbn [Zdigits2] in He. repeat split; try assumption; lia.
Qed.

Lemma div_normal m1 e1 m2 e2 :
  Z.pos (digits2_pos m1) = 24 -> Z.pos (digits2_pos m2) = 24 ->
  -23 <= e1 <= 8 -> -23 <= e2 <= 8 ->
  exists m e, F32.div (S754_finite false m1 e1) (S754_finite false m2 e2)
              = S754_finite false m e /\ Z.pos (digits2_pos m) = 24.
Proof.
  intros H1 H2 He1 He2.
  unfold F32.div, SFdiv, SFdiv_core_binary. cbn [Zdigits2 xorb]. rewrite H1, H2.
  replace (Z.min (fexp F32.prec F32.emax (24 + e1 - (24 + e2))) (e1 - e2))
    with (e1 - e2 - 24) by (unfold fexp, emin, F32.prec, F32.emax; lia).
  replace (e1 - e2 - (e1 - e2 - 24)) with 24 by lia.
  cbv beta iota.
  pose proof (Z_div_mod (Z.shiftl (Z.pos m1) 24) (Z.pos m2) ltac:(lia)) as Hdm.
  destruct (Z.div_eucl (Z.shiftl (Z.pos m1) 24) (Z.pos m2)) as [q r].
  rewrite Z.shiftl_mul_pow2 in Hdm by lia. destruct Hdm as [Hq Hr].
  pose proof (F32Facts.digits2_pos_bounds m1) as B1. rewrite H1 in B1.
  pose proof (F32Facts.digits2_pos_bounds m2) as B2. rewrite H2 in B2.
  change (2 ^ (24 - 1)) with 8388608 in B1, B2.
  change (2 ^ 24) with 16777216 in B1, B2, Hq.
  assert (Hqb : 8388608 <= q < 33554432) by nia.
  assert (Hd : Zdigits2 q = 24 \/ Zdigits2 q = 25).
  { destruct (Z_lt_le_dec q 16777216); [left|right]; apply Zdigits2_unique; lia. }
  destruct (binary_round_aux_normal false q (e1 - e2 - 24) (new_location (Z.pos m2) r))
    as (m & e & E & Hm & _); try lia.
  exists m, e. split; assumption.
Qed.

(** On normal floats the minimum the program takes, [(b < a) ? b : a], is
    the smaller of the two numbers. *)
Lemma min_normal m1 e1 m2 e2 :
  Z.pos (digits2_pos m1) = 24 -> Z.pos (digits2_pos m2) = 24 ->
  spec_min (S754_finite false m1 e1) (S754_finite false m2 e2)
  = Some (F32.min (S754_finite false m1 e1) (S754_finite false m2 e2)).
Proof.
  intros H1 H2.
  pose proof (F32Facts.digits2_pos_bounds m1) as B1. rewrite H1 in B1.
  pose proof (F32Facts.digits2_pos_bounds m2) as B2. rewrite H2 in B2.
  change (2 ^ (24 - 1)) with 8388608 in B1, B2.
  change (2 ^ 24) with 16777216 in B1, B2.
  unfold spec_min, F32.min, F32.ltb, SFltb, SFcompare.
  cbn [spec_exponent spec_units F32.signed]. f_equal.
  destruct (Z.compare_spec e2 e1) as [E|E|E].
  - subst e2. rewrite Z.min_id, Z.sub_diag, Z.pow_0_r, !Z.mul_1_r.
    change (Pos.compare_cont Eq m2 m1) with (Pos.compare m2 m1).
    rewrite Pos2Z.inj_compare.
    destruct (Z.compare_spec (Z.pos m2) (Z.pos m1)) as [C|C|C];
      destruct (Z.leb_spec (Z.pos m1) (Z.pos m2)); try reflexivity; lia.
  - replace (Z.min e1 e2) with e2 by lia.
    rewrite Z.sub_diag, Z.pow_0_r, Z.mul_1_r.
    assert (Hp : 2 <= 2 ^ (e1 - e2)).
    { change 2 with (2 ^ 1) at 1. apply Z.pow_le_mono_r; lia. }
    destruct (Z.leb_spec (Z.pos m1 * 2 ^ (e1 - e2)) (Z.pos m2)); [nia|reflexivity].
  - replace (Z.min e1 e2) with e1 by lia.
    rewrite Z.sub_diag, Z.pow_0_r, Z.mul_1_r.
    assert (Hp : 2 <= 2 ^ (e2 - e1)).
    { change 2 with (2 ^ 1) at 1. apply Z.pow_le_mono_r; lia. }
    destruct (Z.leb_spec (Z.pos m1) (Z.pos m2 * 2 ^ (e2 - e1))); [reflexivity|nia].
Qed.

Lemma smaller_scale_is_min h w oh ow :
  0 < h < 2 ^ 31 -> 0 < w < 2 ^ 31 -> 0 < oh < 2 ^ 31 -> 0 < ow < 2 ^ 31 ->
  spec_smallerScale (h, w) (oh, ow)
  = Some (F32.min (F32.div (F32.of_Z oh) (F32.of_Z h))
                  (F32.div (F32.of_Z ow) (F32.of_Z w))).
Proof.
  intros Hh Hw Hoh How. unfold spec_smallerScale, spec_scale_axis. cbn [fst snd].
  destruct (of_Z_normal h Hh) as (mh & eh & -> & Dh & Eh).
  destruct (of_Z_normal w Hw) as (mw & ew & -> & Dw & Ew).
  destruct (of_Z_normal oh Hoh) as (moh & eoh & -> & Doh & Eoh).
  destruct (of_Z_normal ow How) as (mow & eow & -> & Dow & Eow).
  destruct (div_normal moh eoh mh eh Doh Dh Eoh Eh) as (m1 & e1 & -> & D1).
  destruct (div_normal mow eow mw ew Dow Dw Eow Ew) as (m2 & e2 & -> & D2).
  now apply min_normal.
Qed.

(** The fit scale of the pipeline above, written with the comparison of the
    float library, is that smaller scale. *)
Lemma fitScale_is_smaller h w oh ow :
  0 < h < 2 ^ 31 -> 0 < w < 2 ^ 31 -> 0 < oh < 2 ^ 31 -> 0 < ow < 2 ^ 31 ->
  spec_smallerScale (h, w) (oh, ow) = Some (spec_fitScale (h, w) (oh, ow)).
Proof. intros Hh Hw Hoh How. now rewrite smaller_scale_is_min. Qed.


(** * Properties C1 to C10 *)

(** C1.  For an image and an annotation of the same positive height and
    width and a positive output shape, whatever the draw, the transform
    either raises [output dimensions must be positive] (and then an axis of
    the scaled shape is not positive), or returns an image and an
    annotation whose height and width are the output shape, the image with
    the channels of the input and the annotation with one channel. *)
Theorem output_has_output_shape {A : Type} (zero : A) (img : tensor3 A) (ann : tensor3 Z)
    (h w c oh ow : Z) (minval maxval : F32.t) (m : Z) (g : generator) :
  shape_is img h w c = true -> shape_is ann h w 1 = true ->
  0 < h -> 0 < w -> 0 < c -> 0 < oh -> 0 < ow ->
  match fst (scale_jittering_tensor_with_fixed_size_output zero img ann [oh; ow]
               minval maxval m g) with
  | Ok (out_img, out_ann) =>
      shape_is out_img oh ow c = true /\ shape_is out_ann oh ow 1 = true
  | Raise e =>
      e = InvalidArgumentError "output dimensions must be positive" /\
      (scaled_axis h h w oh ow (draw minval maxval g) <= 0 \/
       scaled_axis w h w oh ow (draw minval maxval g) <= 0)
  end.
Proof.
  intros Hi Ha Hh Hw Hc Hoh How.
  apply shape_is_Shape in Hi, Ha.
  rewrite transform_draw. cbn [fst].
  set (r := draw minval maxval g).
  destruct (Z_lt_le_dec 0 (scaled_axis h h w oh ow r)) as [Hsh|Hsh];
    [destruct (Z_lt_le_dec 0 (scaled_axis w h w oh ow r)) as [Hsw|Hsw]|].
  - rewrite (transform_returns zero img ann h w c oh ow r m) by assumption.
    destruct (resized_shapes img ann h w c _ _ Hi Ha Hh Hw Hsh Hsw) as [Hri Hra].
    rewrite !shape_is_Shape. split.
    + eapply resize_image_with_crop_or_pad_ok; eauto.
    + apply Shape_tmap. eapply resize_image_with_crop_or_pad_ok; eauto. lia.
  - rewrite (transform_raises zero img ann h w c oh ow r m) by auto. auto.
  - rewrite (transform_raises zero img ann h w c oh ow r m) by auto. auto.
Qed.

Lemma output_has_output_shape_witness :
  shape_is sample_image 2 2 1 = true /\
  shape_is sample_annotation 2 2 1 = true /\
  match fst (scale_jittering_tensor_with_fixed_size_output 0
               sample_image sample_annotation [4; 4]
               F32.half F32.half 255 (const_gen 12345)) with
  | Ok (out_img, out_ann) =>
      shape_is out_img 4 4 1 = true /\ shape_is out_ann 4 4 1 = true
  | Raise e =>
      e = InvalidArgumentError "output dimensions must be positive" /\
      (scaled_axis 2 2 2 4 4 (draw F32.half F32.half (const_gen 12345)) <= 0 \/
       scaled_axis 2 2 2 4 4 (draw F32.half F32.half (const_gen 12345)) <= 0)
  end.
Proof.
  split; [reflexivity|]. split; [reflexivity|].
  apply (output_has_output_shape 0 sample_image sample_annotation
           2 2 1 4 4 F32.half F32.half 255 (const_gen 12345));
    solve [reflexivity | lia].
Defined.

(** C2.  For a valid input (an image and an annotation of the same
    positive height and width, class ids that are non-negative int32
    values, a mask-out number that is an int32 value) on which the
    transform returns: the annotation returned is, in int32 arithmetic,
    [cropped + is_pad * (mask_out_number + 1) - 1] for the cropped or
    padded shifted annotation [cropped]; every pixel that came from padding
    is [mask_out_number], and every other pixel is the class id of the
    pixel of the input it was sampled from. *)
Theorem final_annotation_formula {A : Type} (zero : A) (img : tensor3 A) (ann : tensor3 Z)
    (h w c oh ow : Z) (minval maxval : F32.t) (m : Z) (g : generator) out_img out_ann :
  shape_is img h w c = true -> shape_is ann h w 1 = true ->
  0 < h -> 0 < w -> 0 < c -> 0 < oh -> 0 < ow ->
  class_ids_ok ann = true -> Int32.in_range m = true ->
  fst (scale_jittering_tensor_with_fixed_size_output zero img ann [oh; ow]
         minval maxval m g) = Ok (out_img, out_ann) ->
  let sh := scaled_axis h h w oh ow (draw minval maxval g) in
  let sw := scaled_axis w h w oh ow (draw minval maxval g) in
  exists cropped,
    resize_image_with_crop_or_pad 0
      (tmap (fun v => Int32.add v 1) (resized (tmap Int32.wrap ann) h w sh sw)) oh ow
    = Ok cropped /\
    out_ann = tmap (fun v => Int32.sub (Int32.add v (Int32.mul (is_pad v) (m + 1))) 1)
                cropped /\
    forall i j, 0 <= i < oh -> 0 <= j < ow ->
      match source oh sh i, source ow sw j with
      | Some y, Some x =>
          pixel_at out_ann i j
          = pixel_at ann (nearest_index h (CalculateResizeScale h sh) y)
                         (nearest_index w (CalculateResizeScale w sw) x)
      | _, _ => pixel_at out_ann i j = [m]
      end.
Proof.
  intros Hi Ha Hh Hw Hc Hoh How Hids Hm Hrun sh sw.
  apply shape_is_Shape in Hi, Ha.
  destruct (transform_inversion _ _ _ _ _ _ _ _ _ _ _ _ _ _ Hi Ha Hh Hw Hc Hoh How Hrun)
    as (Hsh & Hsw & _ & ->). fold sh sw in Hsh, Hsw |- *.
  destruct (resized_shapes img ann h w c sh sw Hi Ha Hh Hw Hsh Hsw) as [_ Hra].
  set (shifted := tmap (fun v => Int32.add v 1) (resized (tmap Int32.wrap ann) h w sh sw))
    in *.
  exists (crop_or_pad 0 shifted oh ow). split; [|split].
  - eapply resize_image_with_crop_or_pad_ok; eauto. lia.
  - apply tmap_ext_in. intros v _. apply unshift_formula.
  - intros i j Hir Hjr.
    rewrite pixel_at_tmap.
    rewrite (pixel_at_crop_or_pad 0 shifted sh sw 1) by assumption.
    destruct (source oh sh i) as [y|] eqn:Ey;
      [destruct (source ow sw j) as [x|] eqn:Ex|];
      try (change (Z.to_nat 1) with 1%nat; cbn [repeat map];
           now rewrite Int32Facts.unshift_zero).
    apply source_range in Ey, Ex; try assumption.
    unfold shifted. rewrite pixel_at_tmap, pixel_at_resized, pixel_at_tmap by assumption.
    set (px := pixel_at ann _ _).
    rewrite !map_map. rewrite <- (map_id px) at 2.
    apply map_ext_in. intros v Hv.
    assert (Hin : In v (values ann)).
    { eapply pixel_in_values; eauto using nearest_index_bound. }
    destruct (class_ids_ok_spec ann v Hids Hin) as [Hr Hne].
    rewrite (Int32Facts.wrap_in_range v Hr).
    now apply Int32Facts.unshift_shift.
Qed.

Lemma final_annotation_formula_witness :
  shape_is sample_image 2 2 1 = true /\
  shape_is sample_annotation 2 2 1 = true /\
  class_ids_ok sample_annotation = true /\
  Int32.in_range 255 = true /\
  fst (scale_jittering_tensor_with_fixed_size_output 0 sample_image sample_annotation
         [4; 4] F32.half F32.half 255 (const_gen 12345))
  = Ok (sample_out_image, sample_out_annotation) /\
  let sh := scaled_axis 2 2 2 4 4 (draw F32.half F32.half (const_gen 12345)) in
  let sw := scaled_axis 2 2 2 4 4 (draw F32.half F32.half (const_gen 12345)) in
  exists cropped,
    resize_image_with_crop_or_pad 0
      (tmap (fun v => Int32.add v 1)
         (resized (tmap Int32.wrap sample_annotation) 2 2 sh sw)) 4 4
    = Ok cropped /\
    sample_out_annotation
    = tmap (fun v => Int32.sub (Int32.add v (Int32.mul (is_pad v) (255 + 1))) 1) cropped /\
    forall i j, 0 <= i < 4 -> 0 <= j < 4 ->
      match source 4 sh i, source 4 sw j with
      | Some y, Some x =>
          pixel_at sample_out_annotation i j
          = pixel_at sample_annotation (nearest_index 2 (CalculateResizeScale 2 sh) y)
                                       (nearest_index 2 (CalculateResizeScale 2 sw) x)
      | _, _ => pixel_at sample_out_annotation i j = [255]
      end.
Proof.
  split; [reflexivity|]. split; [reflexivity|]. split; [reflexivity|].
  split; [reflexivity|]. split; [vm_compute; reflexivity|].
  apply (final_annotation_formula 0 sample_image sample_annotation 2 2 1 4 4
           F32.half F32.half 255 (const_gen 12345) sample_out_image);
    solve [reflexivity | lia | vm_compute; reflexivity].
Defined.

(** C3.  For a valid input whose class ids are non-negative, every value
    of the annotation the transform returns is the mask-out number or a
    class id of the input annotation. *)
Theorem no_spurious_classes {A : Type} (zero : A) (img : tensor3 A) (ann : tensor3 Z)
    (h w c oh ow : Z) (minval maxval : F32.t) (m : Z) (g : generator) out_img out_ann :
  shape_is img h w c = true -> shape_is ann h w 1 = true ->
  0 < h -> 0 < w -> 0 < c -> 0 < oh -> 0 < ow ->
  class_ids_ok ann = true -> Int32.in_range m = true ->
  fst (scale_jittering_tensor_with_fixed_size_output zero img ann [oh; ow]
         minval maxval m g) = Ok (out_img, out_ann) ->
  forall v, In v (values out_ann) -> v = m \/ In v (values ann).
Proof.
  intros Hi Ha Hh Hw Hc Hoh How Hids Hm Hrun v Hv.
  apply shape_is_Shape in Hi, Ha.
  destruct (transform_inversion _ _ _ _ _ _ _ _ _ _ _ _ _ _ Hi Ha Hh Hw Hc Hoh How Hrun)
    as (Hsh & Hsw & _ & ->).
  rewrite values_tmap in Hv. apply in_map_iff in Hv. destruct Hv as (u & <- & Hu).
  apply values_crop_or_pad in Hu. destruct Hu as [->|Hu].
  - left. now apply Int32Facts.unshift_zero.
  - right. rewrite values_tmap in Hu. apply in_map_iff in Hu.
    destruct Hu as (x & <- & Hx).
    apply values_ResizeNearestNeighbor in Hx.
    rewrite values_tmap in Hx. apply in_map_iff in Hx. destruct Hx as (a & <- & Hin).
    destruct (class_ids_ok_spec ann a Hids Hin) as [Hr Hne].
    rewrite (Int32Facts.wrap_in_range a Hr).
    rewrite Int32Facts.unshift_shift; assumption.
Qed.

Lemma no_spurious_classes_witness :
  shape_is sample_image 2 2 1 = true /\
  shape_is sample_annotation 2 2 1 = true /\
  class_ids_ok sample_annotation = true /\
  Int32.in_range 255 = true /\
  fst (scale_jittering_tensor_with_fixed_size_output 0 sample_image sample_annotation
         [4; 4] F32.half F32.half 255 (const_gen 12345))
  = Ok (sample_out_image, sample_out_annotation) /\
  forall v, In v (values sample_out_annotation) ->
            v = 255 \/ In v (values sample_annotation).
Proof.
  split; [reflexivity|]. split; [reflexivity|]. split; [reflexivity|].
  split; [reflexivity|]. split; [vm_compute; reflexivity|].
  apply (no_spurious_classes 0 sample_image sample_annotation 2 2 1 4 4
           F32.half F32.half 255 (const_gen 12345) sample_out_image);
    solve [reflexivity | lia | vm_compute; reflexivity].
Defined.

(** C4, as amended.  If the output shape is the input shape, both bounds
    of the draw are 1.0, the height and the width are at most [2^24] (so
    that float32 holds them exactly) and the class ids are non-negative,
    the transform returns the image and the annotation it was given. *)
Theorem identity_at_scale_one {A : Type} (zero : A) (img : tensor3 A) (ann : tensor3 Z)
    (h w c : Z) (m : Z) (g : generator) :
  shape_is img h w c = true -> shape_is ann h w 1 = true ->
  0 < h <= 2 ^ 24 -> 0 < w <= 2 ^ 24 -> 0 < c ->
  class_ids_ok ann = true ->
  fst (scale_jittering_tensor_with_fixed_size_output zero img ann [h; w]
         F32.one F32.one m g) = Ok (img, ann).
Proof.
  intros Hi Ha Hh Hw Hc Hids.
  apply shape_is_Shape in Hi, Ha.
  assert (Hsh : F32.small h) by (unfold F32.small; lia).
  assert (Hsw : F32.small w) by (unfold F32.small; lia).
  rewrite transform_draw. cbn [fst].
  unfold F32.one at 1 2. rewrite draw_degenerate. fold F32.one.
  pose proof (scaled_axis_identity h h w Hsh Hsh Hsw ltac:(lia) ltac:(lia)) as Eh.
  pose proof (scaled_axis_identity w h w Hsw Hsh Hsw ltac:(lia) ltac:(lia)) as Ew.
  rewrite (transform_returns zero img ann h w c h w F32.one m)
    by (rewrite ?Eh, ?Ew; auto; lia).
  rewrite Eh, Ew.
  rewrite (resized_identity img h w c) by (auto; lia).
  rewrite (resized_identity (tmap Int32.wrap ann) h w 1)
    by (auto using Shape_tmap; lia).
  rewrite (crop_or_pad_identity zero img h w c) by (auto; lia).
  rewrite (crop_or_pad_identity 0 _ h w 1) by (auto using Shape_tmap; lia).
  rewrite !tmap_tmap. f_equal. f_equal.
  rewrite <- (tmap_id ann) at 2. apply tmap_ext_in. intros v Hv.
  destruct (class_ids_ok_spec ann v Hids Hv) as [Hr Hne].
  rewrite (Int32Facts.wrap_in_range v Hr).
  now apply Int32Facts.unshift_shift.
Qed.

Lemma identity_at_scale_one_witness :
  shape_is [[[1]; [2]]; [[3]; [4]]] 2 2 1 = true /\
  shape_is [[[0]; [1]]; [[2]; [3]]] 2 2 1 = true /\
  class_ids_ok [[[0]; [1]]; [[2]; [3]]] = true /\
  fst (scale_jittering_tensor_with_fixed_size_output 0
         [[[1]; [2]]; [[3]; [4]]] [[[0]; [1]]; [[2]; [3]]] [2; 2]
         F32.one F32.one 255 (const_gen 12345))
  = Ok ([[[1]; [2]]; [[3]; [4]]], [[[0]; [1]]; [[2]; [3]]]).
Proof.
  split; [reflexivity|]. split; [reflexivity|]. split; [reflexivity|].
  apply (identity_at_scale_one 0 [[[1]; [2]]; [[3]; [4]]] [[[0]; [1]]; [[2]; [3]]]
           2 2 1 255 (const_gen 12345));
    solve [reflexivity | lia].
Defined.

(** C4 fails on the tall image, of height [2^24 + 1], with output shape the
    input shape and both bounds of the draw 1.0: float32 holds the height
    as [2^24], the scaled shape is [(2^24, 1)], one row of zeros is padded at
    the bottom, and the last pixel of the annotation returned is the
    mask-out number where the input has class 0. *)
Lemma identity_fails_on_tall_image :
  Shape tall_image tall_height 1 1 /\
  Shape tall_annotation tall_height 1 1 /\
  scaled_input_shape_of [tall_height; 1] [tall_height; 1] [F32.one] = [tall_height - 1; 1] /\
  exists out_img out_ann,
    fst (scale_jittering_tensor_with_fixed_size_output 0 tall_image tall_annotation
           [tall_height; 1] F32.one F32.one 255 (const_gen 0)) = Ok (out_img, out_ann) /\
    pixel_at tall_annotation (tall_height - 1) 0 = [0] /\
    pixel_at out_ann (tall_height - 1) 0 = [255] /\
    out_ann <> tall_annotation.
Proof.
  assert (Hi : Shape tall_image tall_height 1 1)
    by (unfold tall_image; apply Shape_repeat; unfold tall_height; lia).
  assert (Ha : Shape tall_annotation tall_height 1 1)
    by (unfold tall_annotation; apply Shape_repeat; unfold tall_height; lia).
  assert (Eh : scaled_axis tall_height tall_height 1 tall_height 1 F32.one = tall_height - 1)
    by (vm_compute; reflexivity).
  assert (Ew : scaled_axis 1 tall_height 1 tall_height 1 F32.one = 1)
    by (vm_compute; reflexivity).
  assert (Hin : pixel_at tall_annotation (tall_height - 1) 0 = [0]).
  { unfold pixel_at, tall_annotation.
    rewrite nth_repeat_lt by (unfold tall_height; lia). reflexivity. }
  split; [exact Hi|]. split; [exact Ha|].
  split; [rewrite scaled_input_shape_of_axes, Eh, Ew; reflexivity|].
  do 2 eexists. split; [|split; [exact Hin|]].
  - rewrite transform_draw. cbn [fst].
    unfold F32.one at 1 2. rewrite draw_degenerate. fold F32.one.
    apply (transform_returns 0 tall_image tall_annotation tall_height 1 1 tall_height 1
             F32.one 255 Hi Ha);
      rewrite ?Eh, ?Ew; unfold tall_height; lia.
  - rewrite Eh, Ew.
    set (out := tmap (unshift 255) _).
    assert (Hout : pixel_at out (tall_height - 1) 0 = [255]).
    { unfold out. rewrite pixel_at_tmap.
      rewrite (pixel_at_crop_or_pad 0 _ (tall_height - 1) 1 1);
        try (unfold tall_height; lia).
      + replace (source tall_height (tall_height - 1) (tall_height - 1)) with (@None Z)
          by (vm_compute; reflexivity).
        reflexivity.
      + apply Shape_tmap, Shape_ResizeNearestNeighbor; try (unfold tall_height; lia).
        apply Shape_tmap, Ha. }
    split; [exact Hout|].
    clearbody out. intros E. subst out. rewrite Hin in Hout. discriminate.
Qed.

(** C5.  The transform raises on an input that satisfies the shape
    constraints: an image of four rows and one column, output shape (1, 1)
    and both bounds of the draw 1.0.  The fit scale is 0.25, the scaled
    shape is (1, 0), and [resize_nearest_neighbor] refuses it. *)
Theorem thin_image_raises (m : Z) (g : generator) :
  shape_is [[[5]]; [[6]]; [[7]]; [[8]]] 4 1 1 = true /\
  shape_is [[[1]]; [[1]]; [[1]]; [[1]]] 4 1 1 = true /\
  scaled_input_shape_of [4; 1] [1; 1] [draw F32.one F32.one g] = [1; 0] /\
  fst (scale_jittering_tensor_with_fixed_size_output 0
         [[[5]]; [[6]]; [[7]]; [[8]]] [[[1]]; [[1]]; [[1]]; [[1]]] [1; 1]
         F32.one F32.one m g)
  = Raise (InvalidArgumentError "output dimensions must be positive").
Proof.
  assert (Ed : draw F32.one F32.one g = F32.one) by apply draw_degenerate.
  split; [reflexivity|]. split; [reflexivity|]. split.
  - rewrite Ed. vm_compute. reflexivity.
  - rewrite transform_draw, Ed. cbn [fst].
    apply (transform_raises 0 _ _ 4 1 1); try lia.
    + apply shape_is_Shape. reflexivity.
    + right. vm_compute. discriminate.
Qed.

(** C6.  For every image, annotation, output shape, mask-out number and
    draw, the code, which resizes the annotation and then shifts it, returns
    what the pipeline of the specification returns, which shifts the
    annotation and then resizes it: the same image and annotation, or the
    same error. *)
Theorem shift_commutes_with_resize {A : Type} (zero : A) (img : tensor3 A)
    (ann : tensor3 Z) (oh ow : Z) (minval maxval : F32.t) (m : Z) (g : generator) :
  fst (scale_jittering_tensor_with_fixed_size_output zero img ann [oh; ow]
         minval maxval m g)
  = spec_transform zero img ann (oh, ow) (draw minval maxval g) m.
Proof.
  rewrite transform_draw. cbn [fst]. symmetry. apply spec_transform_with_rand_var.
Qed.



(** C8.  Two runs of the transform on the same image, annotation, output
    shape and mask-out number whose draws are equal return the same result,
    whatever the bounds and the generators the draws came from; and a run
    takes one word from the generator. *)
Theorem transform_deterministic {A : Type} (zero : A) (img : tensor3 A)
    (ann : tensor3 Z) (output_shape : list Z) (m : Z)
    (minval1 maxval1 minval2 maxval2 : F32.t) (g1 g2 : generator) :
  draw minval1 maxval1 g1 = draw minval2 maxval2 g2 ->
  fst (scale_jittering_tensor_with_fixed_size_output zero img ann output_shape
         minval1 maxval1 m g1)
  = fst (scale_jittering_tensor_with_fixed_size_output zero img ann output_shape
           minval2 maxval2 m g2) /\
  snd (scale_jittering_tensor_with_fixed_size_output zero img ann output_shape
         minval1 maxval1 m g1)
  = mkGenerator (words g1) (S (position g1)).
Proof.
  intros Hr. rewrite !transform_draw. cbn [fst snd]. rewrite Hr. split; reflexivity.
Qed.

Lemma transform_deterministic_witness :
  draw F32.half F32.one (const_gen 5) = draw F32.half F32.one (const_gen 8388613) /\
  fst (scale_jittering_tensor_with_fixed_size_output 0
         [[[5]; [6]]; [[7]; [8]]] [[[1]; [1]]; [[1]; [1]]] [4; 4]
         F32.half F32.one 255 (const_gen 5))
  = fst (scale_jittering_tensor_with_fixed_size_output 0
           [[[5]; [6]]; [[7]; [8]]] [[[1]; [1]]; [[1]; [1]]] [4; 4]
           F32.half F32.one 255 (const_gen 8388613)).
Proof.
  split; [vm_compute; reflexivity|].
  apply (transform_deterministic 0 [[[5]; [6]]; [[7]; [8]]] [[[1]; [1]]; [[1]; [1]]]
           [4; 4] 255 F32.half F32.one F32.half F32.one (const_gen 5) (const_gen 8388613)).
  vm_compute. reflexivity.
Defined.

(** C9.  A 2x2x1 image, a 2x2x1 annotation of class 1 everywhere, output
    shape (4, 4) and both bounds of the draw 0.5: the draw is 0.5, and the
    annotation returned is 4x4, class 1 on the centered 2x2 block and the
    mask-out number on the border around it (the image is padded with zeros
    the same way). *)
Theorem centered_block_scenario {A : Type} (zero a b c d : A) (m : Z) (g : generator) :
  Int32.in_range m = true ->
  draw F32.half F32.half g = F32.half /\
  fst (scale_jittering_tensor_with_fixed_size_output zero
         [[[a]; [b]]; [[c]; [d]]] [[[1]; [1]]; [[1]; [1]]] [4; 4]
         F32.half F32.half m g)
  = Ok ([[[zero]; [zero]; [zero]; [zero]];
         [[zero]; [a]; [b]; [zero]];
         [[zero]; [c]; [d]; [zero]];
         [[zero]; [zero]; [zero]; [zero]]],
        [[[m]; [m]; [m]; [m]];
         [[m]; [1]; [1]; [m]];
         [[m]; [1]; [1]; [m]];
         [[m]; [m]; [m]; [m]]]).
Proof.
  intros Hm.
  assert (Ed : draw F32.half F32.half g = F32.half) by apply draw_degenerate.
  split; [exact Ed|].
  rewrite transform_draw, Ed. cbn [fst].
  assert (Es : scaled_axis 2 2 2 4 4 F32.half = 2) by (vm_compute; reflexivity).
  rewrite (transform_returns zero _ _ 2 2 1 4 4 F32.half m);
    rewrite ?Es; try lia; try (apply shape_is_Shape; reflexivity).
  replace (crop_or_pad zero (resized [[[a]; [b]]; [[c]; [d]]] 2 2 2 2) 4 4)
    with [[[zero]; [zero]; [zero]; [zero]];
          [[zero]; [a]; [b]; [zero]];
          [[zero]; [c]; [d]; [zero]];
          [[zero]; [zero]; [zero]; [zero]]]
    by (vm_compute; reflexivity).
  replace (crop_or_pad 0
             (tmap (fun v => Int32.add v 1)
                (resized (tmap Int32.wrap [[[1]; [1]]; [[1]; [1]]]) 2 2 2 2)) 4 4)
    with [[[0]; [0]; [0]; [0]];
          [[0]; [Int32.add 1 1]; [Int32.add 1 1]; [0]];
          [[0]; [Int32.add 1 1]; [Int32.add 1 1]; [0]];
          [[0]; [0]; [0]; [0]]]
    by (vm_compute; reflexivity).
  cbn [tmap map].
  rewrite (Int32Facts.unshift_zero m Hm).
  rewrite (Int32Facts.unshift_shift m 1) by (reflexivity || lia).
  reflexivity.
Qed.

Lemma centered_block_scenario_witness :
  Int32.in_range 255 = true /\
  draw F32.half F32.half (const_gen 12345) = F32.half /\
  fst (scale_jittering_tensor_with_fixed_size_output 0
         [[[5]; [6]]; [[7]; [8]]] [[[1]; [1]]; [[1]; [1]]] [4; 4]
         F32.half F32.half 255 (const_gen 12345))
  = Ok ([[[0]; [0]; [0]; [0]];
         [[0]; [5]; [6]; [0]];
         [[0]; [7]; [8]; [0]];
         [[0]; [0]; [0]; [0]]],
        [[[255]; [255]; [255]; [255]];
         [[255]; [1]; [1]; [255]];
         [[255]; [1]; [1]; [255]];
         [[255]; [255]; [255]; [255]]]).
Proof.
  split; [reflexivity|].
  apply (centered_block_scenario 0 5 6 7 8 255 (const_gen 12345)). reflexivity.
Defined.

(** C10.  A pixel of the annotation returned that was sampled from a pixel
    of class id -1 is the mask-out number: the shift makes it 0, which is how
    padding is recognised. *)
Theorem minus_one_becomes_mask {A : Type} (zero : A) (img : tensor3 A) (ann : tensor3 Z)
    (h w c oh ow : Z) (minval maxval : F32.t) (m : Z) (g : generator)
    out_img out_ann (i j y x : Z) :
  shape_is img h w c = true -> shape_is ann h w 1 = true ->
  0 < h -> 0 < w -> 0 < c -> 0 < oh -> 0 < ow ->
  Int32.in_range m = true ->
  fst (scale_jittering_tensor_with_fixed_size_output zero img ann [oh; ow]
         minval maxval m g) = Ok (out_img, out_ann) ->
  let sh := scaled_axis h h w oh ow (draw minval maxval g) in
  let sw := scaled_axis w h w oh ow (draw minval maxval g) in
  0 <= i < oh -> 0 <= j < ow ->
  source oh sh i = Some y -> source ow sw j = Some x ->
  pixel_at ann (nearest_index h (CalculateResizeScale h sh) y)
               (nearest_index w (CalculateResizeScale w sw) x) = [-1] ->
  pixel_at out_ann i j = [m].
Proof.
  intros Hi Ha Hh Hw Hc Hoh How Hm Hrun sh sw Hir Hjr Ey Ex Hpx.
  apply shape_is_Shape in Hi, Ha.
  destruct (transform_inversion _ _ _ _ _ _ _ _ _ _ _ _ _ _ Hi Ha Hh Hw Hc Hoh How Hrun)
    as (Hsh & Hsw & _ & ->). fold sh sw in Hsh, Hsw |- *.
  destruct (resized_shapes img ann h w c sh sw Hi Ha Hh Hw Hsh Hsw) as [_ Hra].
  rewrite pixel_at_tmap.
  rewrite (pixel_at_crop_or_pad 0 _ sh sw 1) by assumption.
  rewrite Ey, Ex.
  apply source_range in Ey, Ex; try assumption.
  rewrite pixel_at_tmap, pixel_at_resized, pixel_at_tmap, Hpx by assumption.
  cbn [map]. change (Int32.wrap (-1)) with (-1).
  now rewrite Int32Facts.unshift_minus_one.
Qed.

Lemma minus_one_becomes_mask_witness :
  shape_is [[[7]]] 1 1 1 = true /\ shape_is [[[-1]]] 1 1 1 = true /\
  In (-1) (values [[[-1]]]) /\
  fst (scale_jittering_tensor_with_fixed_size_output 0 [[[7]]] [[[-1]]] [1; 1]
         F32.one F32.one 255 (const_gen 0)) = Ok ([[[7]]], [[[255]]]) /\
  pixel_at [[[255]]] 0 0 = [255].
Proof.
  split; [reflexivity|]. split; [reflexivity|]. split; [now left|].
  split; [vm_compute; reflexivity|].
  apply (minus_one_becomes_mask 0 [[[7]]] [[[-1]]] 1 1 1 1 1 F32.one F32.one 255
           (const_gen 0) [[[7]]] [[[255]]] 0 0 0 0);
    solve [reflexivity | lia | vm_compute; reflexivity].
Defined.

(** * Further properties of the transform *)

(** ** What makes the transform raise *)

Lemma crop_or_pad_raises_on_target {A : Type} (zero : A) (t : tensor3 A) th tw :
  th <= 0 \/ tw <= 0 -> exists e, resize_image_with_crop_or_pad zero t th tw = Raise e.
Proof.
  intros H. unfold resize_image_with_crop_or_pad.
  destruct (Check3DImage t) as [u|e]; cbn [bind]; [|eauto].
  unfold assert.
  destruct (Z.ltb_spec 0 tw); cbn [bind]; [|eauto].
  destruct (Z.ltb_spec 0 th); cbn [bind]; [|eauto].
  lia.
Qed.

Lemma resize_raises_on_empty {A : Type} (t : tensor3 A) size :
  height t = 0 \/ width t = 0 \/ depth t = 0 ->
  exists e, resize_nearest_neighbor [t] size = Raise e.
Proof.
  intros H. unfold resize_nearest_neighbor.
  destruct size as [|oh [|ow [|? ?]]]; eauto.
  cbn [hd]. unfold assert.
  destruct ((0 <? oh) && (0 <? ow)); cbn [bind]; [|eauto].
  destruct (Z.ltb_spec 0 (depth t)); cbn [bind]; [|eauto].
  destruct (Z.ltb_spec 0 (height t)), (Z.ltb_spec 0 (width t)); cbn [andb bind]; eauto.
  lia.
Qed.

(** X4.  Whatever the image, the annotation and the draw, an output shape
    with an axis that is not positive makes the transform raise. *)
Theorem nonpositive_output_shape_raises {A : Type} (zero : A) (img : tensor3 A)
    (ann : tensor3 Z) (oh ow : Z) (minval maxval : F32.t) (m : Z) (g : generator) :
  oh <= 0 \/ ow <= 0 ->
  exists e,
    fst (scale_jittering_tensor_with_fixed_size_output zero img ann [oh; ow]
           minval maxval m g) = Raise e.
Proof.
  intros H. rewrite transform_draw. cbn [fst].
  unfold scale_jittering_with_rand_var, expand_dims. cbn [map nth].
  destruct (resize_nearest_neighbor_single img
              (scaled_input_shape_of (slice (shape [img]) 1 3) [oh; ow]
                 [draw minval maxval g])) as [[ti ->]|[e ->]]; [|cbn [bind]; eauto].
  destruct (resize_nearest_neighbor_single (tmap Int32.wrap ann)
              (scaled_input_shape_of (slice (shape [img]) 1 3) [oh; ow]
                 [draw minval maxval g])) as [[ta ->]|[e ->]]; [|cbn [bind]; eauto].
  cbn [bind squeeze].
  destruct (crop_or_pad_raises_on_target zero ti oh ow H) as [e ->].
  cbn [bind]. eauto.
Qed.

Lemma nonpositive_output_shape_raises_witness :
  (4 <= 0 \/ -3 <= 0) /\
  exists e,
    fst (scale_jittering_tensor_with_fixed_size_output 0 sample_image sample_annotation
           [4; -3] F32.half F32.half 255 (const_gen 12345)) = Raise e.
Proof.
  split; [lia|].
  apply (nonpositive_output_shape_raises 0 sample_image sample_annotation 4 (-3)
           F32.half F32.half 255 (const_gen 12345)).
  lia.
Defined.

(** X5.  An image or an annotation with no row, no column or no channel
    makes the transform raise, whatever the output shape and the draw. *)
Theorem empty_input_raises {A : Type} (zero : A) (img : tensor3 A)
    (ann : tensor3 Z) (output_shape : list Z) (minval maxval : F32.t) (m : Z)
    (g : generator) :
  (height img = 0 \/ width img = 0 \/ depth img = 0) \/
  (height ann = 0 \/ width ann = 0 \/ depth ann = 0) ->
  exists e,
    fst (scale_jittering_tensor_with_fixed_size_output zero img ann output_shape
           minval maxval m g) = Raise e.
Proof.
  intros H. rewrite transform_draw. cbn [fst].
  unfold scale_jittering_with_rand_var, expand_dims. cbn [map].
  set (size := scaled_input_shape_of _ _ _).
  destruct H as [H|H].
  - destruct (resize_raises_on_empty img size H) as [e ->]. cbn [bind]. eauto.
  - destruct (resize_nearest_neighbor_single img size) as [[ti ->]|[e ->]];
      [|cbn [bind]; eauto].
    destruct (tmap_dims Int32.wrap ann) as (Eh & Ew & Ed).
    rewrite <- Eh, <- Ew, <- Ed in H.
    destruct (resize_raises_on_empty (tmap Int32.wrap ann) size H) as [e ->].
    cbn [bind]. eauto.
Qed.

Lemma empty_input_raises_witness :
  ((height (@nil (list (list Z))) = 0 \/ width (@nil (list (list Z))) = 0 \/
    depth (@nil (list (list Z))) = 0) \/
   (height sample_annotation = 0 \/ width sample_annotation = 0 \/
    depth sample_annotation = 0)) /\
  exists e,
    fst (scale_jittering_tensor_with_fixed_size_output 0 [] sample_annotation
           [4; 4] F32.half F32.half 255 (const_gen 12345)) = Raise e.
Proof.
  split; [left; left; reflexivity|].
  apply (empty_input_raises 0 [] sample_annotation [4; 4] F32.half F32.half 255
           (const_gen 12345)).
  left. left. reflexivity.
Defined.

(** ** The result for an annotation of any shape *)

Lemma transform_returns_any_annotation {A : Type} (zero : A) (img : tensor3 A)
    (ann : tensor3 Z) (h w c ha wa ca oh ow : Z) (r : F32.t) (m : Z) :
  Shape img h w c -> Shape ann ha wa ca ->
  0 < h -> 0 < w -> 0 < c -> 0 < ha -> 0 < wa -> 0 < ca ->
  let sh := scaled_axis h h w oh ow r in
  let sw := scaled_axis w h w oh ow r in
  0 < sh -> 0 < sw -> 0 < oh -> 0 < ow ->
  scale_jittering_with_rand_var zero img ann [oh; ow] [r] m
  = Ok (crop_or_pad zero (resized img h w sh sw) oh ow,
        tmap (unshift m)
          (crop_or_pad 0
             (tmap (fun v => Int32.add v 1) (resized (tmap Int32.wrap ann) ha wa sh sw))
             oh ow)).
Proof.
  intros Hi Ha Hh Hw Hc Hha Hwa Hca sh sw Hsh Hsw Hoh How.
  destruct (Shape_dims _ _ _ _ Hi Hh Hw) as (Eh & Ew & Ec).
  pose proof (Shape_tmap Int32.wrap _ _ _ _ Ha) as Hwa'.
  destruct (Shape_dims _ _ _ _ Hwa' Hha Hwa) as (Eh' & Ew' & Ec').
  unfold scale_jittering_with_rand_var, expand_dims.
  cbn [shape slice hd skipn firstn Nat.sub map].
  rewrite Eh, Ew, scaled_input_shape_of_axes. fold sh sw.
  unfold resize_nearest_neighbor. cbn [hd map].
  rewrite Eh, Ew, Ec, Eh', Ew', Ec'.
  replace ((0 <? sh) && (0 <? sw)) with true by bool_lia.
  replace ((0 <? h) && (0 <? w)) with true by bool_lia.
  replace ((0 <? ha) && (0 <? wa)) with true by bool_lia.
  replace (0 <? c) with true by bool_lia.
  replace (0 <? ca) with true by bool_lia.
  cbn [assert bind squeeze nth].
  pose proof (Shape_ResizeNearestNeighbor img h w c
                (CalculateResizeScale h sh) (CalculateResizeScale w sw) sh sw
                Hi Hh Hw ltac:(lia) ltac:(lia)) as Hri.
  pose proof (Shape_ResizeNearestNeighbor (tmap Int32.wrap ann) ha wa ca
                (CalculateResizeScale ha sh) (CalculateResizeScale wa sw) sh sw
                Hwa' Hha Hwa ltac:(lia) ltac:(lia)) as Hra.
  apply (Shape_tmap (fun v => Int32.add v 1)) in Hra.
  destruct (resize_image_with_crop_or_pad_ok zero _ _ _ _ oh ow Hri Hsh Hsw Hc Hoh How)
    as [-> _].
  destruct (resize_image_with_crop_or_pad_ok 0 _ _ _ _ oh ow Hra Hsh Hsw Hca Hoh How)
    as [-> _].
  cbn [bind]. unfold resized. rewrite tmap2_tmap_r, tmap_tmap. reflexivity.
Qed.

(** X6.  The height, width and channels of the annotation are never compared
    with the image's.  The scaled shape is computed from the image alone, an
    annotation of any positive shape is resized to it, and whenever both
    axes of it are positive the transform returns an annotation of the
    output height and width with the channels it was given. *)
Theorem mismatched_annotation_accepted {A : Type} (zero : A) (img : tensor3 A)
    (ann : tensor3 Z) (h w c ha wa ca oh ow : Z) (minval maxval : F32.t) (m : Z)
    (g : generator) :
  shape_is img h w c = true -> shape_is ann ha wa ca = true ->
  0 < h -> 0 < w -> 0 < c -> 0 < ha -> 0 < wa -> 0 < ca -> 0 < oh -> 0 < ow ->
  0 < scaled_axis h h w oh ow (draw minval maxval g) ->
  0 < scaled_axis w h w oh ow (draw minval maxval g) ->
  exists out_img out_ann,
    fst (scale_jittering_tensor_with_fixed_size_output zero img ann [oh; ow]
           minval maxval m g) = Ok (out_img, out_ann) /\
    shape_is out_img oh ow c = true /\ shape_is out_ann oh ow ca = true.
Proof.
  intros Hi Ha Hh Hw Hc Hha Hwa Hca Hoh How Hsh Hsw.
  apply shape_is_Shape in Hi, Ha.
  rewrite transform_draw. cbn [fst].
  rewrite (transform_returns_any_annotation zero img ann h w c ha wa ca oh ow _ m)
    by assumption.
  do 2 eexists. split; [reflexivity|]. rewrite !shape_is_Shape. split.
  - refine (proj2 (resize_image_with_crop_or_pad_ok zero _ _ _ c oh ow _ Hsh Hsw Hc Hoh How)).
    apply Shape_ResizeNearestNeighbor; auto; lia.
  - apply Shape_tmap.
    refine (proj2 (resize_image_with_crop_or_pad_ok 0 _ _ _ ca oh ow _ Hsh Hsw Hca Hoh How)).
    apply Shape_tmap, Shape_ResizeNearestNeighbor; auto; try lia.
    now apply Shape_tmap.
Qed.

Lemma mismatched_annotation_accepted_witness :
  shape_is sample_image 2 2 1 = true /\
  shape_is [[[1; 9]; [2; 9]; [3; 9]]] 1 3 2 = true /\
  0 < scaled_axis 2 2 2 4 4 (draw F32.half F32.half (const_gen 12345)) /\
  fst (scale_jittering_tensor_with_fixed_size_output 0 sample_image
         [[[1; 9]; [2; 9]; [3; 9]]] [4; 4] F32.half F32.half 255 (const_gen 12345))
  = Ok (sample_out_image,
        [[[255; 255]; [255; 255]; [255; 255]; [255; 255]];
         [[255; 255]; [1; 9]; [2; 9]; [255; 255]];
         [[255; 255]; [1; 9]; [2; 9]; [255; 255]];
         [[255; 255]; [255; 255]; [255; 255]; [255; 255]]]) /\
  exists out_img out_ann,
    fst (scale_jittering_tensor_with_fixed_size_output 0 sample_image
           [[[1; 9]; [2; 9]; [3; 9]]] [4; 4] F32.half F32.half 255 (const_gen 12345))
    = Ok (out_img, out_ann) /\
    shape_is out_img 4 4 1 = true /\ shape_is out_ann 4 4 2 = true.
Proof.
  split; [reflexivity|]. split; [reflexivity|]. split; [vm_compute; reflexivity|].
  split; [vm_compute; reflexivity|].
  apply (mismatched_annotation_accepted 0 sample_image [[[1; 9]; [2; 9]; [3; 9]]]
           2 2 1 1 3 2 4 4 F32.half F32.half 255 (const_gen 12345));
    solve [reflexivity | lia | vm_compute; reflexivity].
Defined.

(** X3.  For an image and an annotation of the same positive height and
    width and a positive output shape, the transform returns exactly when
    both axes of the scaled shape are positive. *)
Theorem returns_iff_scaled_shape_positive {A : Type} (zero : A) (img : tensor3 A)
    (ann : tensor3 Z) (h w c oh ow : Z) (minval maxval : F32.t) (m : Z)
    (g : generator) :
  shape_is img h w c = true -> shape_is ann h w 1 = true ->
  0 < h -> 0 < w -> 0 < c -> 0 < oh -> 0 < ow ->
  (exists out,
     fst (scale_jittering_tensor_with_fixed_size_output zero img ann [oh; ow]
            minval maxval m g) = Ok out)
  <-> 0 < scaled_axis h h w oh ow (draw minval maxval g) /\
      0 < scaled_axis w h w oh ow (draw minval maxval g).
Proof.
  intros Hi Ha Hh Hw Hc Hoh How. apply shape_is_Shape in Hi, Ha. split.
  - intros [[out_img out_ann] Hrun].
    destruct (transform_inversion zero _ _ _ _ _ _ _ _ _ _ _ _ _
                Hi Ha Hh Hw Hc Hoh How Hrun) as (Hsh & Hsw & _). auto.
  - intros [Hsh Hsw]. rewrite transform_draw. cbn [fst].
    rewrite (transform_returns zero img ann h w c oh ow _ m) by assumption. eauto.
Qed.

Lemma returns_iff_scaled_shape_positive_witness :
  shape_is sample_image 2 2 1 = true /\
  shape_is sample_annotation 2 2 1 = true /\
  ((exists out,
      fst (scale_jittering_tensor_with_fixed_size_output 0 sample_image
             sample_annotation [4; 4] F32.half F32.half 255 (const_gen 12345)) = Ok out)
   <-> 0 < scaled_axis 2 2 2 4 4 (draw F32.half F32.half (const_gen 12345)) /\
       0 < scaled_axis 2 2 2 4 4 (draw F32.half F32.half (const_gen 12345))).
Proof.
  split; [reflexivity|]. split; [reflexivity|].
  apply (returns_iff_scaled_shape_positive 0 sample_image sample_annotation 2 2 1 4 4
           F32.half F32.half 255 (const_gen 12345));
    solve [reflexivity | lia].
Defined.

(** ** Where the pixels of the result come from *)

Lemma source_when_padding target size i :
  size <= target ->
  source target size i
  = if ((target - size) / 2 <=? i) && (i <? (target - size) / 2 + size)
    then Some (i - (target - size) / 2) else None.
Proof.
  intros H. unfold source.
  replace (Z.max (- (target - size) / 2) 0) with 0 by (Z.div_mod_to_equations; lia).
  replace (Z.max ((target - size) / 2) 0) with ((target - size) / 2)
    by (Z.div_mod_to_equations; lia).
  replace (Z.min target size) with size by lia.
  now rewrite Z.add_0_r.
Qed.

Lemma source_when_cropping target size i :
  target <= size -> 0 <= i < target ->
  source target size i = Some (i + (size - target) / 2).
Proof.
  intros H Hi. unfold source.
  replace (Z.max (- (target - size) / 2) 0) with ((size - target) / 2)
    by (replace (- (target - size)) with (size - target) by lia;
        Z.div_mod_to_equations; lia).
  replace (Z.max ((target - size) / 2) 0) with 0 by (Z.div_mod_to_equations; lia).
  replace (Z.min target size) with target by lia.
  replace ((0 <=? i) && (i <? 0 + target)) with true by bool_lia.
  f_equal. lia.
Qed.

Lemma image_pixel {A : Type} (zero : A) (img : tensor3 A) h w c sh sw oh ow i j :
  Shape img h w c -> 0 < h -> 0 < w -> 0 < sh -> 0 < sw -> 0 < oh -> 0 < ow ->
  0 <= i < oh -> 0 <= j < ow ->
  pixel_at (crop_or_pad zero (resized img h w sh sw) oh ow) i j
  = match source oh sh i, source ow sw j with
    | Some y, Some x =>
        pixel_at img (nearest_index h (CalculateResizeScale h sh) y)
                     (nearest_index w (CalculateResizeScale w sw) x)
    | _, _ => repeat zero (Z.to_nat c)
    end.
Proof.
  intros Hi Hh Hw Hsh Hsw Hoh How Hir Hjr.
  assert (Hri : Shape (resized img h w sh sw) sh sw c)
    by (apply Shape_ResizeNearestNeighbor; auto; lia).
  rewrite (pixel_at_crop_or_pad zero _ sh sw c) by assumption.
  destruct (source oh sh i) as [y|] eqn:Ey; [|reflexivity].
  destruct (source ow sw j) as [x|] eqn:Ex; [|reflexivity].
  apply source_range in Ey, Ex; try assumption.
  now rewrite pixel_at_resized.
Qed.

Lemma annotation_pixel (ann : tensor3 Z) h w sh sw oh ow m i j :
  Shape ann h w 1 -> 0 < h -> 0 < w -> 0 < sh -> 0 < sw -> 0 < oh -> 0 < ow ->
  0 <= i < oh -> 0 <= j < ow ->
  pixel_at (tmap (unshift m)
              (crop_or_pad 0
                 (tmap (fun v => Int32.add v 1) (resized (tmap Int32.wrap ann) h w sh sw))
                 oh ow)) i j
  = match source oh sh i, source ow sw j with
    | Some y, Some x =>
        map (fun v => unshift m (Int32.add (Int32.wrap v) 1))
          (pixel_at ann (nearest_index h (CalculateResizeScale h sh) y)
                        (nearest_index w (CalculateResizeScale w sw) x))
    | _, _ => [unshift m 0]
    end.
Proof.
  intros Ha Hh Hw Hsh Hsw Hoh How Hir Hjr.
  assert (Hra : Shape (tmap (fun v => Int32.add v 1)
                         (resized (tmap Int32.wrap ann) h w sh sw)) sh sw 1).
  { apply Shape_tmap, Shape_ResizeNearestNeighbor; auto; try lia.
    now apply Shape_tmap. }
  rewrite pixel_at_tmap.
  rewrite (pixel_at_crop_or_pad 0 _ sh sw 1) by assumption.
  destruct (source oh sh i) as [y|] eqn:Ey;
    [destruct (source ow sw j) as [x|] eqn:Ex|];
    try reflexivity.
  apply source_range in Ey, Ex; try assumption.
  rewrite pixel_at_tmap, pixel_at_resized, pixel_at_tmap by assumption.
  now rewrite !map_map.
Qed.

Lemma class_pixel_unchanged (ann : tensor3 Z) h w m y x :
  Shape ann h w 1 -> class_ids_ok ann = true ->
  (Z.to_nat y < Z.to_nat h)%nat -> (Z.to_nat x < Z.to_nat w)%nat ->
  map (fun v => unshift m (Int32.add (Int32.wrap v) 1)) (pixel_at ann y x)
  = pixel_at ann y x.
Proof.
  intros Ha Hids Hy Hx.
  set (px := pixel_at ann y x).
  rewrite <- (map_id px) at 2.
  apply map_ext_in. intros v Hv.
  assert (Hin : In v (values ann)) by (eapply pixel_in_values; eauto).
  destruct (class_ids_ok_spec ann v Hids Hin) as [Hr Hne].
  rewrite (Int32Facts.wrap_in_range v Hr).
  now apply Int32Facts.unshift_shift.
Qed.

(** X1.  The image and the annotation stay aligned.  Every pixel of the
    returned image and the pixel of the returned annotation at the same
    place are either both copies of the input pixels at one and the same
    place of the input, or both padding: zeros in the image and
    [mask_out_number] in the annotation. *)
Theorem image_and_annotation_aligned {A : Type} (zero : A) (img : tensor3 A)
    (ann : tensor3 Z) (h w c oh ow : Z) (minval maxval : F32.t) (m : Z) (g : generator)
    out_img out_ann :
  shape_is img h w c = true -> shape_is ann h w 1 = true ->
  0 < h -> 0 < w -> 0 < c -> 0 < oh -> 0 < ow ->
  class_ids_ok ann = true -> Int32.in_range m = true ->
  fst (scale_jittering_tensor_with_fixed_size_output zero img ann [oh; ow]
         minval maxval m g) = Ok (out_img, out_ann) ->
  forall i j, 0 <= i < oh -> 0 <= j < ow ->
    (exists y x, 0 <= y < h /\ 0 <= x < w /\
       pixel_at out_img i j = pixel_at img y x /\
       pixel_at out_ann i j = pixel_at ann y x) \/
    (pixel_at out_img i j = repeat zero (Z.to_nat c) /\ pixel_at out_ann i j = [m]).
Proof.
  intros Hi Ha Hh Hw Hc Hoh How Hids Hm Hrun i j Hir Hjr.
  apply shape_is_Shape in Hi, Ha.
  destruct (transform_inversion zero _ _ _ _ _ _ _ _ _ _ _ _ _
              Hi Ha Hh Hw Hc Hoh How Hrun) as (Hsh & Hsw & -> & ->).
  rewrite (image_pixel zero img h w c) by assumption.
  rewrite (annotation_pixel ann h w) by assumption.
  rewrite (Int32Facts.unshift_zero m Hm).
  destruct (source oh _ i) as [y|]; [destruct (source ow _ j) as [x|]|]; auto.
  left.
  pose proof (nearest_index_bound h (CalculateResizeScale h
                (scaled_axis h h w oh ow (draw minval maxval g))) y Hh) as Hy.
  pose proof (nearest_index_bound w (CalculateResizeScale w
                (scaled_axis w h w oh ow (draw minval maxval g))) x Hw) as Hx.
  rewrite (class_pixel_unchanged ann h w) by assumption.
  set (in_y := nearest_index h _ y) in *. set (in_x := nearest_index w _ x) in *.
  exists (Z.max 0 in_y), (Z.max 0 in_x).
  split; [lia|]. split; [lia|].
  unfold pixel_at.
  replace (Z.to_nat (Z.max 0 in_y)) with (Z.to_nat in_y) by lia.
  replace (Z.to_nat (Z.max 0 in_x)) with (Z.to_nat in_x) by lia.
  auto.
Qed.

Lemma image_and_annotation_aligned_witness :
  shape_is sample_image 2 2 1 = true /\
  class_ids_ok sample_annotation = true /\
  fst (scale_jittering_tensor_with_fixed_size_output 0 sample_image sample_annotation
         [4; 4] F32.half F32.half 255 (const_gen 12345))
  = Ok (sample_out_image, sample_out_annotation) /\
  forall i j, 0 <= i < 4 -> 0 <= j < 4 ->
    (exists y x, 0 <= y < 2 /\ 0 <= x < 2 /\
       pixel_at sample_out_image i j = pixel_at sample_image y x /\
       pixel_at sample_out_annotation i j = pixel_at sample_annotation y x) \/
    (pixel_at sample_out_image i j = repeat 0 (Z.to_nat 1) /\
     pixel_at sample_out_annotation i j = [255]).
Proof.
  split; [reflexivity|]. split; [reflexivity|]. split; [vm_compute; reflexivity|].
  apply (image_and_annotation_aligned 0 sample_image sample_annotation 2 2 1 4 4
           F32.half F32.half 255 (const_gen 12345));
    solve [reflexivity | lia | vm_compute; reflexivity].
Defined.

(** X2.  The image is only resampled and padded: every value of the
    returned image is a value of the input image or the zero it is padded
    with.  Nothing is interpolated. *)
Theorem image_values_preserved {A : Type} (zero : A) (img : tensor3 A)
    (ann : tensor3 Z) (h w c oh ow : Z) (minval maxval : F32.t) (m : Z) (g : generator)
    out_img out_ann :
  shape_is img h w c = true -> shape_is ann h w 1 = true ->
  0 < h -> 0 < w -> 0 < c -> 0 < oh -> 0 < ow ->
  fst (scale_jittering_tensor_with_fixed_size_output zero img ann [oh; ow]
         minval maxval m g) = Ok (out_img, out_ann) ->
  forall v, In v (values out_img) -> v = zero \/ In v (values img).
Proof.
  intros Hi Ha Hh Hw Hc Hoh How Hrun v Hv.
  apply shape_is_Shape in Hi, Ha.
  destruct (transform_inversion zero _ _ _ _ _ _ _ _ _ _ _ _ _
              Hi Ha Hh Hw Hc Hoh How Hrun) as (_ & _ & -> & _).
  apply values_crop_or_pad in Hv. destruct Hv as [->|Hv]; [now left|right].
  now apply values_ResizeNearestNeighbor in Hv.
Qed.

Lemma image_values_preserved_witness :
  shape_is sample_image 2 2 1 = true /\
  fst (scale_jittering_tensor_with_fixed_size_output 0 sample_image sample_annotation
         [4; 4] F32.half F32.half 255 (const_gen 12345))
  = Ok (sample_out_image, sample_out_annotation) /\
  forall v, In v (values sample_out_image) -> v = 0 \/ In v (values sample_image).
Proof.
  split; [reflexivity|]. split; [vm_compute; reflexivity|].
  apply (image_values_preserved 0 sample_image sample_annotation 2 2 1 4 4
           F32.half F32.half 255 (const_gen 12345) sample_out_image sample_out_annotation);
    solve [reflexivity | lia | vm_compute; reflexivity].
Defined.

(** X7.  When the scaled image is no larger than the output, it is placed in
    the middle of it: rows [top] to [top + sh - 1] and columns [left] to
    [left + sw - 1] hold the scaled image and annotation, everything around
    is zero in the image and [mask_out_number] in the annotation, and an odd
    pixel of margin goes below and to the right. *)
Theorem padding_is_centered {A : Type} (zero : A) (img : tensor3 A) (ann : tensor3 Z)
    (h w c oh ow : Z) (minval maxval : F32.t) (m : Z) (g : generator) out_img out_ann :
  shape_is img h w c = true -> shape_is ann h w 1 = true ->
  0 < h -> 0 < w -> 0 < c -> 0 < oh -> 0 < ow ->
  Int32.in_range m = true ->
  fst (scale_jittering_tensor_with_fixed_size_output zero img ann [oh; ow]
         minval maxval m g) = Ok (out_img, out_ann) ->
  let sh := scaled_axis h h w oh ow (draw minval maxval g) in
  let sw := scaled_axis w h w oh ow (draw minval maxval g) in
  sh <= oh -> sw <= ow ->
  let top := (oh - sh) / 2 in
  let left := (ow - sw) / 2 in
  top <= oh - sh - top <= top + 1 /\
  left <= ow - sw - left <= left + 1 /\
  forall i j, 0 <= i < oh -> 0 <= j < ow ->
    if (top <=? i) && (i <? top + sh) && (left <=? j) && (j <? left + sw)
    then pixel_at out_img i j
         = pixel_at img (nearest_index h (CalculateResizeScale h sh) (i - top))
                        (nearest_index w (CalculateResizeScale w sw) (j - left))
    else pixel_at out_img i j = repeat zero (Z.to_nat c) /\
         pixel_at out_ann i j = [m].
Proof.
  intros Hi Ha Hh Hw Hc Hoh How Hm Hrun sh sw Hfh Hfw top left.
  apply shape_is_Shape in Hi, Ha.
  destruct (transform_inversion zero _ _ _ _ _ _ _ _ _ _ _ _ _
              Hi Ha Hh Hw Hc Hoh How Hrun) as (Hsh & Hsw & -> & ->).
  fold sh sw in Hsh, Hsw |- *.
  split; [subst top; Z.div_mod_to_equations; lia|].
  split; [subst left; Z.div_mod_to_equations; lia|].
  intros i j Hir Hjr.
  rewrite (image_pixel zero img h w c) by assumption.
  rewrite (annotation_pixel ann h w) by assumption.
  rewrite (Int32Facts.unshift_zero m Hm).
  rewrite (source_when_padding oh sh i Hfh), (source_when_padding ow sw j Hfw).
  fold top left.
  destruct ((top <=? i) && (i <? top + sh)); cbn [andb]; [|auto].
  destruct ((left <=? j) && (j <? left + sw)); auto.
Qed.

Lemma padding_is_centered_witness :
  shape_is sample_image 2 2 1 = true /\
  scaled_axis 2 2 2 5 4 (draw F32.half F32.half (const_gen 12345)) = 2 /\
  let out := fst (scale_jittering_tensor_with_fixed_size_output 0 sample_image
                    sample_annotation [5; 4] F32.half F32.half 255 (const_gen 12345)) in
  exists out_img out_ann, out = Ok (out_img, out_ann) /\
    1 <= 5 - 2 - 1 <= 1 + 1 /\
    pixel_at out_img 1 1 = pixel_at sample_image 0 0 /\
    pixel_at out_ann 3 1 = [255].
Proof.
  split; [reflexivity|]. split; [vm_compute; reflexivity|].
  cbv zeta.
  destruct (fst (scale_jittering_tensor_with_fixed_size_output 0 sample_image
                   sample_annotation [5; 4] F32.half F32.half 255 (const_gen 12345)))
    as [[out_img out_ann]|e] eqn:Hrun; [|vm_compute in Hrun; discriminate].
  exists out_img, out_ann. split; [reflexivity|].
  assert (Hs : scaled_axis 2 2 2 5 4 (draw F32.half F32.half (const_gen 12345)) = 2)
    by (vm_compute; reflexivity).
  pose proof (padding_is_centered 0 sample_image sample_annotation 2 2 1 5 4
                F32.half F32.half 255 (const_gen 12345) out_img out_ann
                eq_refl eq_refl ltac:(lia) ltac:(lia) ltac:(lia) ltac:(lia) ltac:(lia)
                eq_refl Hrun) as H.
  cbv zeta in H. rewrite Hs in H.
  specialize (H ltac:(lia) ltac:(lia)). destruct H as (Hm & _ & Hpx).
  split; [exact Hm|]. split.
  - exact (Hpx 1 1 ltac:(lia) ltac:(lia)).
  - exact (proj2 (Hpx 3 1 ltac:(lia) ltac:(lia))).
Defined.

(** X8.  When the scaled image is no smaller than the output, the output is
    the middle of it: output pixel (i, j) is the pixel (i + top, j + left) of
    the scaled image and annotation, nothing is padded and no class id is
    replaced by [mask_out_number]; an odd row or column of excess is cut
    below and to the right. *)
Theorem crop_is_centered {A : Type} (zero : A) (img : tensor3 A) (ann : tensor3 Z)
    (h w c oh ow : Z) (minval maxval : F32.t) (m : Z) (g : generator) out_img out_ann :
  shape_is img h w c = true -> shape_is ann h w 1 = true ->
  0 < h -> 0 < w -> 0 < c -> 0 < oh -> 0 < ow ->
  class_ids_ok ann = true ->
  fst (scale_jittering_tensor_with_fixed_size_output zero img ann [oh; ow]
         minval maxval m g) = Ok (out_img, out_ann) ->
  let sh := scaled_axis h h w oh ow (draw minval maxval g) in
  let sw := scaled_axis w h w oh ow (draw minval maxval g) in
  oh <= sh -> ow <= sw ->
  let top := (sh - oh) / 2 in
  let left := (sw - ow) / 2 in
  top <= sh - oh - top <= top + 1 /\
  left <= sw - ow - left <= left + 1 /\
  forall i j, 0 <= i < oh -> 0 <= j < ow ->
    pixel_at out_img i j
    = pixel_at img (nearest_index h (CalculateResizeScale h sh) (i + top))
                   (nearest_index w (CalculateResizeScale w sw) (j + left)) /\
    pixel_at out_ann i j
    = pixel_at ann (nearest_index h (CalculateResizeScale h sh) (i + top))
                   (nearest_index w (CalculateResizeScale w sw) (j + left)).
Proof.
  intros Hi Ha Hh Hw Hc Hoh How Hids Hrun sh sw Hfh Hfw top left.
  apply shape_is_Shape in Hi, Ha.
  destruct (transform_inversion zero _ _ _ _ _ _ _ _ _ _ _ _ _
              Hi Ha Hh Hw Hc Hoh How Hrun) as (Hsh & Hsw & -> & ->).
  fold sh sw in Hsh, Hsw |- *.
  split; [subst top; Z.div_mod_to_equations; lia|].
  split; [subst left; Z.div_mod_to_equations; lia|].
  intros i j Hir Hjr.
  rewrite (image_pixel zero img h w c) by assumption.
  rewrite (annotation_pixel ann h w) by assumption.
  rewrite (source_when_cropping oh sh i Hfh Hir), (source_when_cropping ow sw j Hfw Hjr).
  fold top left. split; [reflexivity|].
  apply (class_pixel_unchanged ann h w); auto using nearest_index_bound.
Qed.

Lemma crop_is_centered_witness :
  shape_is sample_image 2 2 1 = true /\
  class_ids_ok sample_annotation = true /\
  scaled_axis 2 2 2 2 2 (draw F32.two F32.two (const_gen 12345)) = 4 /\
  let out := fst (scale_jittering_tensor_with_fixed_size_output 0 sample_image
                    sample_annotation [2; 2] F32.two F32.two 255 (const_gen 12345)) in
  exists out_img out_ann, out = Ok (out_img, out_ann) /\
    1 <= 4 - 2 - 1 <= 1 + 1 /\
    pixel_at out_img 0 1 = pixel_at sample_image 0 1 /\
    pixel_at out_ann 1 0 = pixel_at sample_annotation 1 0.
Proof.
  split; [reflexivity|]. split; [reflexivity|]. split; [vm_compute; reflexivity|].
  cbv zeta.
  destruct (fst (scale_jittering_tensor_with_fixed_size_output 0 sample_image
                   sample_annotation [2; 2] F32.two F32.two 255 (const_gen 12345)))
    as [[out_img out_ann]|e] eqn:Hrun; [|vm_compute in Hrun; discriminate].
  exists out_img, out_ann. split; [reflexivity|].
  assert (Hs : scaled_axis 2 2 2 2 2 (draw F32.two F32.two (const_gen 12345)) = 4)
    by (vm_compute; reflexivity).
  pose proof (crop_is_centered 0 sample_image sample_annotation 2 2 1 2 2
                F32.two F32.two 255 (const_gen 12345) out_img out_ann
                eq_refl eq_refl ltac:(lia) ltac:(lia) ltac:(lia) ltac:(lia) ltac:(lia)
                eq_refl Hrun) as H.
  cbv zeta in H. rewrite Hs in H.
  specialize (H ltac:(lia) ltac:(lia)). destruct H as (Hm & _ & Hpx).
  change ((4 - 2) / 2) with 1 in Hm, Hpx.
  split; [exact Hm|]. split.
  - exact (proj1 (Hpx 0 1 ltac:(lia) ltac:(lia))).
  - exact (proj2 (Hpx 1 0 ltac:(lia) ltac:(lia))).
Defined.

(** ** Annotations with any int32 values *)

(** X9.  Whatever the values of the annotation, every value of the returned
    annotation is [mask_out_number] or the int32 value of an input label
    other than -1: negative labels other than -1 and the largest int32 pass
    the shift by one and back unchanged, and -1 is never returned unless
    [mask_out_number] is -1. *)
Theorem labels_survive_except_minus_one {A : Type} (zero : A) (img : tensor3 A)
    (ann : tensor3 Z) (h w c oh ow : Z) (minval maxval : F32.t) (m : Z) (g : generator)
    out_img out_ann :
  shape_is img h w c = true -> shape_is ann h w 1 = true ->
  0 < h -> 0 < w -> 0 < c -> 0 < oh -> 0 < ow ->
  Int32.in_range m = true ->
  fst (scale_jittering_tensor_with_fixed_size_output zero img ann [oh; ow]
         minval maxval m g) = Ok (out_img, out_ann) ->
  forall v, In v (values out_ann) ->
    v = m \/ (v <> -1 /\ exists a, In a (values ann) /\ v = Int32.wrap a).
Proof.
  intros Hi Ha Hh Hw Hc Hoh How Hm Hrun v Hv.
  apply shape_is_Shape in Hi, Ha.
  destruct (transform_inversion zero _ _ _ _ _ _ _ _ _ _ _ _ _
              Hi Ha Hh Hw Hc Hoh How Hrun) as (_ & _ & _ & ->).
  rewrite values_tmap in Hv. apply in_map_iff in Hv. destruct Hv as (u & <- & Hu).
  apply values_crop_or_pad in Hu. destruct Hu as [->|Hu].
  - left. now apply Int32Facts.unshift_zero.
  - rewrite values_tmap in Hu. apply in_map_iff in Hu. destruct Hu as (x & <- & Hx).
    apply values_ResizeNearestNeighbor in Hx.
    rewrite values_tmap in Hx. apply in_map_iff in Hx. destruct Hx as (a & <- & Hin).
    destruct (Z.eq_dec (Int32.wrap a) (-1)) as [E|E].
    + left. rewrite E. now apply Int32Facts.unshift_minus_one.
    + right. rewrite Int32Facts.unshift_shift by (auto using Int32Facts.wrap_range).
      eauto.
Qed.

Lemma labels_survive_except_minus_one_witness :
  shape_is sample_image 2 2 1 = true /\
  fst (scale_jittering_tensor_with_fixed_size_output 0 sample_image
         [[[-1]; [-7]]; [[2147483647]; [4294967296]]] [2; 2] F32.one F32.one 255
         (const_gen 12345))
  = Ok (sample_image, [[[255]; [-7]]; [[2147483647]; [0]]]) /\
  forall v, In v (values [[[255]; [-7]]; [[2147483647]; [0]]]) ->
    v = 255 \/
    (v <> -1 /\
     exists a, In a (values [[[-1]; [-7]]; [[2147483647]; [4294967296]]]) /\
               v = Int32.wrap a).
Proof.
  split; [reflexivity|]. split; [vm_compute; reflexivity|].
  apply (labels_survive_except_minus_one 0 sample_image
           [[[-1]; [-7]]; [[2147483647]; [4294967296]]] 2 2 1 2 2 F32.one F32.one 255
           (const_gen 12345) sample_image);
    solve [reflexivity | lia | vm_compute; reflexivity].
Defined.

(** ** The draw *)

(** X10.  With equal finite bounds of the scale change the generator has no
    influence on the result: the draw is the bound itself, whatever word the
    generator produces. *)
Theorem equal_bounds_ignore_generator {A : Type} (zero : A) (img : tensor3 A)
    (ann : tensor3 Z) (output_shape : list Z) (s : bool) (mant : positive) (e : Z)
    (m : Z) (g1 g2 : generator) :
  fst (scale_jittering_tensor_with_fixed_size_output zero img ann output_shape
         (S754_finite s mant e) (S754_finite s mant e) m g1)
  = fst (scale_jittering_tensor_with_fixed_size_output zero img ann output_shape
           (S754_finite s mant e) (S754_finite s mant e) m g2).
Proof. now rewrite !transform_draw, !draw_degenerate. Qed.

(** ** The image is handled without looking at its values *)

Lemma array_slice_tmap {A B : Type} (f : A -> B) (t : tensor3 A) bh bw sh sw :
  array_slice (tmap f t) bh bw sh sw = tmap f (array_slice t bh bw sh sw).
Proof.
  unfold array_slice, tmap.
  rewrite skipn_map, firstn_map, !map_map.
  apply map_ext. intros row. now rewrite skipn_map, firstn_map.
Qed.

Lemma array_pad_tmap {A B : Type} (f : A -> B) (zero : A) (t : tensor3 A)
    top bottom left right :
  array_pad (f zero) (tmap f t) top bottom left right
  = tmap f (array_pad zero t top bottom left right).
Proof.
  unfold array_pad.
  destruct (tmap_dims f t) as (_ & -> & ->).
  unfold tmap. rewrite !map_app, !map_repeat, !map_map.
  do 2 f_equal. apply map_ext. intros row.
  now rewrite !map_app, !map_repeat.
Qed.

Lemma Check3DImage_tmap {A B : Type} (f : A -> B) (t : tensor3 A) :
  Check3DImage (tmap f t) = Check3DImage t.
Proof. unfold Check3DImage. now destruct (tmap_dims f t) as (-> & -> & ->). Qed.

Lemma resize_image_with_crop_or_pad_tmap {A B : Type} (f : A -> B) (zero : A)
    (t : tensor3 A) th tw :
  resize_image_with_crop_or_pad (f zero) (tmap f t) th tw
  = bind (resize_image_with_crop_or_pad zero t th tw) (fun u => Ok (tmap f u)).
Proof.
  unfold resize_image_with_crop_or_pad, crop_to_bounding_box.
  rewrite Check3DImage_tmap.
  destruct (tmap_dims f t) as (-> & -> & _).
  destruct (Check3DImage t); cbn [bind]; [|reflexivity].
  repeat (destruct (assert _ _); cbn [bind]; [|reflexivity]).
  rewrite array_slice_tmap.
  unfold pad_to_bounding_box.
  rewrite Check3DImage_tmap.
  destruct (tmap_dims f (array_slice t (Z.max (- (th - height t) / 2) 0)
                           (Z.max (- (tw - width t) / 2) 0)
                           (Z.min th (height t)) (Z.min tw (width t)))) as (-> & -> & _).
  destruct (Check3DImage _); cbn [bind]; [|reflexivity].
  repeat (destruct (assert _ _); cbn [bind]; [|reflexivity]).
  now rewrite array_pad_tmap.
Qed.

(** X11.  The transform moves the values of the image without reading
    them: changing every value of the image by a function [f] and padding
    with [f zero] gives the image changed by [f] after the transform, the
    same annotation, the same errors and the same generator. *)
Theorem image_map_commutes {A B : Type} (f : A -> B) (zero : A) (img : tensor3 A)
    (ann : tensor3 Z) (output_shape : list Z) (minval maxval : F32.t) (m : Z)
    (g : generator) :
  scale_jittering_tensor_with_fixed_size_output (f zero) (tmap f img) ann output_shape
    minval maxval m g
  = (out <- fst (scale_jittering_tensor_with_fixed_size_output zero img ann output_shape
                   minval maxval m g) ;;
     Ok (tmap f (fst out), snd out),
     snd (scale_jittering_tensor_with_fixed_size_output zero img ann output_shape
            minval maxval m g)).
Proof.
  rewrite !transform_draw. cbn [fst snd]. f_equal.
  unfold scale_jittering_with_rand_var, expand_dims, shape.
  cbn [hd].
  destruct (tmap_dims f img) as (-> & -> & ->).
  rewrite resize_nearest_neighbor_tmap.
  destruct (resize_nearest_neighbor [img] _) as [b|e]; cbn [bind]; [|reflexivity].
  destruct (resize_nearest_neighbor _ _) as [b'|e]; cbn [bind]; [|reflexivity].
  destruct b as [|t [|t' b]]; cbn [map squeeze bind]; try reflexivity.
  destruct (squeeze b') as [a|e]; cbn [bind]; [|reflexivity].
  rewrite resize_image_with_crop_or_pad_tmap.
  destruct (resize_image_with_crop_or_pad zero t _ _) as [u|e]; cbn [bind];
    [|reflexivity].
  destruct (resize_image_with_crop_or_pad 0 _ _ _) as [u'|e]; cbn [bind fst snd];
    reflexivity.
Qed.

(** X12.  The returned annotation depends on the image only through its
    shape: two images of the same shape give, with the same annotation,
    output shape, bounds and generator, the same annotation or the same
    error. *)
Theorem annotation_ignores_image_values {A : Type} (zero : A) (img1 img2 : tensor3 A)
    (ann : tensor3 Z) (h w c oh ow : Z) (minval maxval : F32.t) (m : Z)
    (g : generator) :
  shape_is img1 h w c = true -> shape_is img2 h w c = true ->
  shape_is ann h w 1 = true ->
  0 < h -> 0 < w -> 0 < c -> 0 < oh -> 0 < ow ->
  (out <- fst (scale_jittering_tensor_with_fixed_size_output zero img1 ann [oh; ow]
                 minval maxval m g) ;; Ok (snd out))
  = (out <- fst (scale_jittering_tensor_with_fixed_size_output zero img2 ann [oh; ow]
                   minval maxval m g) ;; Ok (snd out)).
Proof.
  intros H1 H2 Ha Hh Hw Hc Hoh How.
  apply shape_is_Shape in H1, H2, Ha.
  rewrite !transform_draw. cbn [fst].
  set (r := draw minval maxval g).
  destruct (Z_lt_le_dec 0 (scaled_axis h h w oh ow r)) as [Hsh|Hsh];
    [destruct (Z_lt_le_dec 0 (scaled_axis w h w oh ow r)) as [Hsw|Hsw]|].
  - rewrite (transform_returns zero img1 ann h w c oh ow r m) by assumption.
    rewrite (transform_returns zero img2 ann h w c oh ow r m) by assumption.
    reflexivity.
  - rewrite (transform_raises zero img1 ann h w c oh ow r m) by auto.
    rewrite (transform_raises zero img2 ann h w c oh ow r m) by auto.
    reflexivity.
  - rewrite (transform_raises zero img1 ann h w c oh ow r m) by auto.
    rewrite (transform_raises zero img2 ann h w c oh ow r m) by auto.
    reflexivity.
Qed.

Lemma annotation_ignores_image_values_witness :
  shape_is sample_image 2 2 1 = true /\
  shape_is [[[0]; [0]]; [[0]; [0]]] 2 2 1 = true /\
  (out <- fst (scale_jittering_tensor_with_fixed_size_output 0 sample_image
                 sample_annotation [4; 4] F32.half F32.half 255 (const_gen 12345)) ;;
   Ok (snd out))
  = (out <- fst (scale_jittering_tensor_with_fixed_size_output 0 [[[0]; [0]]; [[0]; [0]]]
                   sample_annotation [4; 4] F32.half F32.half 255 (const_gen 12345)) ;;
     Ok (snd out)).
Proof.
  split; [reflexivity|]. split; [reflexivity|].
  apply (annotation_ignores_image_values 0 sample_image [[[0]; [0]]; [[0]; [0]]]
           sample_annotation 2 2 1 4 4 F32.half F32.half 255 (const_gen 12345));
    solve [reflexivity | lia].
Defined.

(** ** Half the size *)

Lemma mul_half z m e :
  F32.represents z (S754_finite false m e) ->
  F32.mul (S754_finite false m e) F32.half = S754_finite false m (e - 1).
Proof.
  intros H. inversion H as [m' e' Hm He Hv]. subst m' e'.
  unfold F32.mul, F32.half, SFmul, binary_round_aux, shr_fexp.
  cbn [xorb Zdigits2 shr_record_of_loc].
  rewrite (Pos.mul_comm m 8388608).
  change (8388608 * m)%positive with (Pos.iter xO m 23).
  rewrite F32Facts.digits2_pos_shiftl, Pos2Z.inj_add, Hm.
  replace (fexp F32.prec F32.emax (24 + 23 + (e + -24)) - (e + -24)) with 23
    by (unfold fexp, emin, F32.prec, F32.emax; lia).
  cbn [shr iter_pos shr_1 Pos.iter orb shr_m loc_of_shr_record round_nearest_even
       Zdigits2 shr_record_of_loc].
  rewrite Hm.
  replace (fexp F32.prec F32.emax (24 + (e + -24 + 23)) - (e + -24 + 23)) with 0
    by (unfold fexp, emin, F32.prec, F32.emax; lia).
  cbn [shr shr_m].
  replace (e + -24 + 23 <=? F32.emax - F32.prec) with true
    by (symmetry; apply Z.leb_le; unfold F32.emax, F32.prec; lia).
  f_equal. lia.
Qed.

Lemma nearest_even_mag_half z m e :
  0 < z -> -23 <= e <= 0 -> Z.pos m = z * 2 ^ (- e) ->
  F32.nearest_even_mag m (e - 1)
  = z / 2 + (if Z.odd z && Z.odd (z / 2) then 1 else 0).
Proof.
  intros Hz He Hv. unfold F32.nearest_even_mag.
  replace (0 <=? e - 1) with false by (symmetry; apply Z.leb_gt; lia).
  replace (- (e - 1)) with (1 + - e) by lia.
  rewrite Z.pow_add_r, Z.pow_1_r by lia.
  set (p := 2 ^ (- e)) in *.
  assert (Hp : 0 < p) by (apply Z.pow_pos_nonneg; lia).
  cbv zeta. rewrite Hv.
  assert (Hq : z * p / (2 * p) = z / 2).
  { rewrite (Z.mul_comm 2 p), <- Z.div_div, Z.div_mul by lia. reflexivity. }
  assert (Hr : (z * p) mod (2 * p) = (z mod 2) * p).
  { rewrite Z.mod_eq, Hq by lia. rewrite (Z.mod_eq z 2) by lia. ring. }
  rewrite Hq, Hr.
  rewrite <- Z.negb_even. 
  rewrite Zmod_even.
  destruct (Z.even z) eqn:Ez; cbn [negb andb].
  - replace (2 * (0 * p) ?= 2 * p) with Lt by (symmetry; apply Z.compare_lt_iff; lia).
    lia.
  - replace (2 * (1 * p) ?= 2 * p) with Eq by (symmetry; apply Z.compare_eq_iff; lia).
    rewrite <- Z.negb_even. destruct (Z.even (z / 2)); cbn [negb]; lia.
Qed.

Lemma scaled_axis_half a h w :
  0 < a < 2 ^ 24 -> F32.small h -> F32.small w -> 0 < h -> 0 < w ->
  scaled_axis a h w h w F32.half
  = a / 2 + (if Z.odd a && Z.odd (a / 2) then 1 else 0).
Proof.
  intros Ha Hh Hw Hhp Hwp. unfold scaled_axis.
  rewrite !F32Facts.div_self_of_Z by assumption.
  change (F32.mul (F32.min F32.one F32.one) F32.half) with F32.half.
  pose proof (F32Facts.of_Z_represents a Ha) as Hr.
  destruct Hr as [m e Hm He Hv].
  rewrite (mul_half a m e) by (constructor; assumption).
  rewrite F32Facts.to_int32_round_spec by (cbn [F32.canonical]; lia).
  cbn [spec_round F32.signed cast_int32].
  rewrite (nearest_even_mag_half a m e) by lia.
  set (n := a / 2 + _).
  assert (Hn : 0 <= n <= a).
  { subst n. destruct (Z.odd a && Z.odd (a / 2)); Z.div_mod_to_equations; lia. }
  replace (Int32.in_range n) with true; [reflexivity|].
  unfold Int32.in_range, Int32.min_int, Int32.max_int. bool_lia.
Qed.

(** X13.  With the output shape equal to the shape of the input and both
    bounds of the scale change 0.5, each axis of the scaled shape is half
    the axis of the input, and an odd axis is rounded to the even one of the
    two nearest integers: 5 gives 2, 7 gives 4 and 1 gives 0. *)
Theorem half_scale_rounds_half_to_even (h w : Z) (g : generator) :
  0 < h < 2 ^ 24 -> 0 < w < 2 ^ 24 ->
  scaled_input_shape_of [h; w] [h; w] [draw F32.half F32.half g]
  = [h / 2 + (if Z.odd h && Z.odd (h / 2) then 1 else 0);
     w / 2 + (if Z.odd w && Z.odd (w / 2) then 1 else 0)].
Proof.
  intros Hh Hw.
  unfold F32.half. rewrite draw_degenerate. fold F32.half.
  rewrite scaled_input_shape_of_axes.
  rewrite !scaled_axis_half by (unfold F32.small; lia).
  reflexivity.
Qed.

Lemma half_scale_rounds_half_to_even_witness :
  scaled_input_shape_of [5; 7] [5; 7] [draw F32.half F32.half (const_gen 12345)]
  = [2; 4].
Proof.
  apply (half_scale_rounds_half_to_even 5 7 (const_gen 12345)); lia.
Defined.
